(** * IWR6843 radar driver: stream reassembly, frame queue and configuration upload

    A shallow embedding of [Code/Radar/Radar/radar_sensor/IWR6843.cpp]:
    the marker scan ([findIndexesOfMagicWord]), the frame carving
    ([splitIntoSublistsByIndexes]), the polling state machine ([poll]), the
    decoded-frame accessors and the configuration upload ([sendConfigFile]).

    Conventions.
    - [uint8_t] is [Byte.byte]; a [vector<uint8_t>] is a [list byte].
    - [size_t] offsets into a vector are [nat] (they never exceed the length
      of the vector they index, so no wrap-around can be observed); [int]
      values are [Z].
    - An iterator into a vector is the suffix of the vector that starts at the
      iterator; [end()] is the empty suffix and
      [distance(begin(), it)] is [length v - length it].
    - Operations whose C++ precondition fails (an iterator range outside the
      vector, a negative element count) have the outcome [Undefined]. *)

From Equations Require Import Equations.
From Equations.Prop Require Import Logic.
From Stdlib Require Import Ascii String.
From Stdlib Require Import List Arith ZArith Lia Bool.
From Stdlib Require Import Init.Byte Strings.Byte.
From Stdlib Require Import Sorting.Sorted Sorting.Permutation.
Import ListNotations.

Set Implicit Arguments.

(** ** Outcomes of a call *)

Inductive outcome (A : Type) : Type :=
| Ret (a : A)        (* the call returns [a] *)
| Undefined          (* the call has undefined behaviour *)
| Diverges.          (* a loop was still running when the fuel ran out *)

Arguments Ret {A} a.
Arguments Undefined {A}.
Arguments Diverges {A}.

Definition bind {A B : Type} (m : outcome A) (k : A -> outcome B) : outcome B :=
  match m with
  | Ret a => k a
  | Undefined => Undefined
  | Diverges => Diverges
  end.

Declare Scope outcome_scope.
Delimit Scope outcome_scope with outcome.
Notation "x <- m ;; k" := (bind m (fun x => k))
  (at level 61, m at next level, right associativity) : outcome_scope.
Local Open Scope outcome_scope.

(** ** [std::search] and [std::string::find] *)

Section Search.

Variable A : Type.
Variable eqb : A -> A -> bool.

(** Does the range starting at [it] begin with [pat]? *)
Fixpoint starts_with (pat it : list A) : bool :=
  match pat, it with
  | [], _ => true
  | _ :: _, [] => false
  | p :: pat', x :: it' => eqb p x && starts_with pat' it'
  end.

(** [std::search(it, end, pat.begin(), pat.end())]: the iterator to the first
    position at or after [it] where [pat] occurs, [end] when there is none. *)
Fixpoint search (it pat : list A) : list A :=
  match it with
  | [] => []
  | _ :: it' => if starts_with pat it then it else search it' pat
  end.

(** [s.find(pat) != npos] *)
Definition contains (s pat : list A) : bool :=
  match pat, search s pat with
  | [], _ => true
  | _ :: _, [] => false
  | _ :: _, _ :: _ => true
  end.

Lemma search_length it pat : length (search it pat) <= length it.
Proof.
  induction it as [|x it IH]; simpl; [lia|].
  destruct (starts_with pat (x :: it)); simpl; lia.
Qed.

End Search.

(** ** The marker and the locator *)

(** [const vector<uint8_t> pattern = { 0x02, 0x01, 0x04, 0x03, 0x06, 0x05, 0x08, 0x07 }] *)
Definition pattern : list byte := [x02; x01; x04; x03; x06; x05; x08; x07].

(** The [while] loop of [findIndexesOfMagicWord]:
    [while ((it = search(it, end, pattern)) != end) { indexes.push_back(distance(begin, it)); ++it; }] *)
Equations? find_loop (dataBuffer it : list byte) (indexes : list nat) : list nat
  by wf (length it) lt :=
  find_loop dataBuffer it indexes with inspect (search Byte.eqb it pattern) := {
    | exist _ [] _ := indexes
    | exist _ (x :: it') Heq :=
        find_loop dataBuffer it'
          (indexes ++ [length dataBuffer - length (x :: it')]) }.
Proof.
  pose proof (search_length Byte.eqb it pattern) as Hlen.
  rewrite Heq in Hlen. simpl in Hlen. lia.
Qed.

Definition findIndexesOfMagicWord (dataBuffer : list byte) : list nat :=
  find_loop dataBuffer dataBuffer [].

(** ** Vector primitives

    [v.begin() + k] is a valid iterator only for [0 <= k <= v.size()], and a
    pair of iterators is a valid range only when the first does not come
    after the second. *)

(** [vector<T>(v.begin() + first, v.begin() + last)] *)
Definition range {T : Type} (v : list T) (first last : nat) : outcome (list T) :=
  if (first <=? last) && (last <=? length v)
  then Ret (firstn (last - first) (skipn first v))
  else Undefined.

(** [v.erase(v.begin() + first, v.begin() + last)] *)
Definition erase {T : Type} (v : list T) (first last : nat) : outcome (list T) :=
  if (first <=? last) && (last <=? length v)
  then Ret (firstn first v ++ skipn last v)
  else Undefined.

(** [v.insert(v.end(), buffer, buffer + n)] for an array [buffer] whose first
    [length buffer] cells were filled in *)
Definition insert_end {T : Type} (v buffer : list T) (n : Z) : outcome (list T) :=
  if (0 <=? n)%Z && (n <=? Z.of_nat (length buffer))%Z
  then Ret (v ++ firstn (Z.to_nat n) buffer)
  else Undefined.

(** ** Frame carving *)

(** The body of the [for] loop of [splitIntoSublistsByIndexes], run [n] times
    from index [i]. [indexes[k]] is unchecked, and the sublist is built from
    the iterators [dataBuffer.begin() + start] and
    [dataBuffer.begin() + end - 1]. *)
Fixpoint split_loop (dataBuffer : list byte) (indexes : list nat) (n i : nat)
    (sublists : list (list byte)) : outcome (list (list byte)) :=
  match n with
  | 0 => Ret sublists
  | S n' =>
      match nth_error indexes i, nth_error indexes (i + 1) with
      | Some start, Some end_ =>
          if (end_ =? 0) || (length dataBuffer <? end_) then Undefined else
          sublist <- range dataBuffer start (end_ - 1) ;;
          split_loop dataBuffer indexes n' (S i) (sublists ++ [sublist])
      | _, _ => Undefined
      end
  end.

(** [for (size_t i = 0; i < indexes.size() - 1; ++i)]: for an empty [indexes]
    the bound wraps around to [SIZE_MAX] and [indexes[0]] is read out of
    range. *)
Definition splitIntoSublistsByIndexes (dataBuffer : list byte) (indexes : list nat)
    : outcome (list (list byte)) :=
  match indexes with
  | [] => Undefined
  | _ :: _ => split_loop dataBuffer indexes (length indexes - 1) 0 []
  end.

(** ** The data port *)

(** The receive queue of the serial device behind [dataPort_fd], and whether
    the next [ioctl] or [read] on it fails. *)
Record serial_port : Type := {
  rx : list byte;
  ioctl_fails : bool;
  read_fails : bool
}.

(** [ioctl(fd, FIONREAD, &bytesAvailable)]: the return code and the value of
    [bytesAvailable] afterwards (it was initialised to 0). *)
Definition ioctl_FIONREAD (port : serial_port) : Z * Z :=
  if ioctl_fails port then ((-1)%Z, 0%Z) else (0%Z, Z.of_nat (length (rx port))).

(** [read(fd, buffer, count)]: the return value, the bytes stored in [buffer]
    and the port afterwards. *)
Definition read (port : serial_port) (count : Z) : Z * list byte * serial_port :=
  if read_fails port then ((-1)%Z, [], port) else
  let n := Nat.min (Z.to_nat count) (length (rx port)) in
  (Z.of_nat n, firstn n (rx port),
   {| rx := skipn n (rx port);
      ioctl_fails := ioctl_fails port;
      read_fails := read_fails port |}).

(** New bytes arrive on the line. *)
Definition deliver (port : serial_port) (chunk : list byte) : serial_port :=
  {| rx := rx port ++ chunk;
     ioctl_fails := ioctl_fails port;
     read_fails := read_fails port |}.

(** ** The reassembler *)

Section Reassembler.

(** The decoded frame type and its constructor [SensorData(vector<uint8_t>)]
    are declared outside this translation unit. *)
Variable SensorData : Type.
Variable mkSensorData : list byte -> SensorData.

Record IWR6843 : Type := {
  dataBuffer : list byte;
  decodedFrameBuffer : list SensorData
}.

(** [for (uint8_t i = 0; i < sublists.size(); i++)
       decodedFrameBuffer.push_back(SensorData(sublists.at(i)));]
    The counter is 8 bits wide and wraps around after 255. The bounds check
    of [at] cannot fail, since [i < sublists.size()] was just tested. *)
Fixpoint push_loop (fuel : nat) (sublists : list (list byte)) (i : Z)
    (queue : list SensorData) : outcome (list SensorData) :=
  match fuel with
  | 0 => Diverges
  | S fuel' =>
      if (i <? Z.of_nat (length sublists))%Z then
        match nth_error sublists (Z.to_nat i) with
        | Some sublist =>
            push_loop fuel' sublists ((i + 1) mod 256)%Z
              (queue ++ [mkSensorData sublist])
        | None => Undefined
        end
      else Ret queue
  end.

Definition poll (fuel : nat) (self : IWR6843) (port : serial_port)
    : outcome (Z * IWR6843 * serial_port) :=
  let '(rc, bytesAvailable) := ioctl_FIONREAD port in
  if (rc =? -1)%Z then Ret ((-1)%Z, self, port) else
  if (bytesAvailable <? 1)%Z then Ret (0%Z, self, port) else
  let bytesToRead := Z.min bytesAvailable 1024 in
  let '(bytesRead, buffer, port') := read port bytesToRead in
  buf1 <- insert_end (dataBuffer self) buffer bytesRead ;;
  let indexesOfMagicWords := findIndexesOfMagicWord buf1 in
  if length indexesOfMagicWords <? 2 then
    Ret (0%Z,
         {| dataBuffer := buf1; decodedFrameBuffer := decodedFrameBuffer self |},
         port')
  else
  buf2 <- (if hd 0 indexesOfMagicWords =? 0 then Ret buf1
           else erase buf1 0 (hd 0 indexesOfMagicWords)) ;;
  sublists <- splitIntoSublistsByIndexes buf2 indexesOfMagicWords ;;
  queue <- push_loop fuel sublists 0 (decodedFrameBuffer self) ;;
  buf3 <- erase buf2 (hd 0 indexesOfMagicWords) (last indexesOfMagicWords 0) ;;
  Ret (Z.of_nat (length sublists),
       {| dataBuffer := buf3; decodedFrameBuffer := queue |},
       port').

(** [getDecodedFrameBuffer] returns a copy of the queue. *)
Definition getDecodedFrameBuffer (self : IWR6843) : list SensorData :=
  decodedFrameBuffer self.

(** [getDecodedFramesFromTop(num, del)]: the returned vector and the object
    afterwards. The copy is taken from the iterators [begin()] and
    [begin() + num], which is only defined for [0 <= num <= size()]. *)
Definition getDecodedFramesFromTop (self : IWR6843) (num : Z) (del : bool)
    : outcome (list SensorData * IWR6843) :=
  if (num <? 0)%Z || (Z.of_nat (length (decodedFrameBuffer self)) <? num)%Z
  then Undefined else
  framesFromTop <- range (decodedFrameBuffer self) 0 (Z.to_nat num) ;;
  if del then
    queue <- erase (decodedFrameBuffer self) 0 (Z.to_nat num) ;;
    Ret (framesFromTop,
         {| dataBuffer := dataBuffer self; decodedFrameBuffer := queue |})
  else Ret (framesFromTop, self).

(** Successive calls of [poll], a chunk of bytes arriving on the line before
    each one; the return values are summed. *)
Fixpoint poll_chunks (fuel : nat) (self : IWR6843) (port : serial_port)
    (chunks : list (list byte)) : outcome (Z * IWR6843 * serial_port) :=
  match chunks with
  | [] => Ret (0%Z, self, port)
  | chunk :: chunks' =>
      r <- poll fuel self (deliver port chunk) ;;
      let '(n, self', port') := r in
      r' <- poll_chunks fuel self' port' chunks' ;;
      let '(m, self'', port'') := r' in
      Ret ((n + m)%Z, self'', port'')
  end.

End Reassembler.

(** ** The configuration upload *)

(** What the device behind [configPort_fd] does up to the next availability
    query of the driver. *)
Inductive line_event : Type :=
| Arrives (bytes : list ascii)    (* these bytes join the receive queue *)
| QueryFails                      (* the query itself returns -1 *)
| ReadFails (bytes : list ascii). (* bytes arrive, the [read] after the query returns -1 *)

(** The receive queue of the configuration port and the events still to come.
    A loop that polls a port with no events left is still waiting. *)
Record config_port : Type := {
  pending : list ascii;
  script : list line_event
}.

(** What the upload does that can be observed from outside: the argument of
    each [write], and the value of [response] each time the [do] loop is left
    through [break]. *)
Inductive upload_event : Type :=
| Sent (line : list ascii)
| Acked (response : list ascii).

Definition Done : list ascii := list_ascii_of_string "Done".
Definition Skipped : list ascii := list_ascii_of_string "Skipped".

(** [response.find("Done") != npos || response.find("Skipped") != npos] *)
Definition acknowledged (response : list ascii) : bool :=
  contains Ascii.eqb response Done || contains Ascii.eqb response Skipped.

(** The [do { ... } while (true)] loop: [Some response] when it is left
    through [break], [None] when the function returns -1 from inside it. *)
Fixpoint response_loop (script : list line_event) (pending response : list ascii)
    : outcome (option (list ascii) * config_port) :=
  if acknowledged response
  then Ret (Some response, {| pending := pending; script := script |})
  else
    match script with
    | [] => Diverges
    | QueryFails :: script' =>
        Ret (None, {| pending := pending; script := script' |})
    | Arrives bytes :: script' =>
        let pending := pending ++ bytes in
        let bytesAvailable := Z.of_nat (length pending) in
        if (bytesAvailable =? 0)%Z then response_loop script' pending response
        else
          let bytesToRead := Z.min bytesAvailable 1024 in
          let bytesRead := Z.to_nat bytesToRead in
          response_loop script' (skipn bytesRead pending)
            (response ++ firstn bytesRead pending)
    | ReadFails bytes :: script' =>
        let pending := pending ++ bytes in
        let bytesAvailable := Z.of_nat (length pending) in
        if (bytesAvailable =? 0)%Z then response_loop script' pending response
        else Undefined
    end.

(** [configFileLine.empty() || configFileLine[0] == '%'] *)
Definition skipped_line (configFileLine : list ascii) : bool :=
  match configFileLine with
  | [] => true
  | c :: _ => Ascii.eqb c "%"%char
  end.

(** The [while (getline(...))] loop over the lines still to be read, with the
    events observed so far. *)
Fixpoint upload_lines (lines : list (list ascii)) (port : config_port)
    (trace : list upload_event) : list upload_event * outcome (Z * config_port) :=
  match lines with
  | [] => (trace, Ret (1%Z, port))
  | configFileLine :: lines' =>
      if skipped_line configFileLine then upload_lines lines' port trace
      else
        let trace := trace ++ [Sent configFileLine] in
        match response_loop (script port) (pending port) [] with
        | Ret (Some response, port') =>
            upload_lines lines' port' (trace ++ [Acked response])
        | Ret (None, port') => (trace, Ret ((-1)%Z, port'))
        | Undefined => (trace, Undefined)
        | Diverges => (trace, Diverges)
        end
  end.

(** The lines that successive calls of [getline] extract from a stream with
    the given contents: each call takes the characters up to the next newline
    and fails once nothing is left. *)
Fixpoint file_lines (contents : list ascii) : list (list ascii) :=
  match contents with
  | [] => []
  | c :: contents' =>
      if Ascii.eqb c "010"%char then [] :: file_lines contents'
      else
        match file_lines contents' with
        | [] => [[c]]
        | line :: lines => (c :: line) :: lines
        end
  end.

(** [sendConfigFile]: [file] is [None] when the stream cannot be opened. *)
Definition sendConfigFile (file : option (list ascii)) (port : config_port)
    : list upload_event * outcome (Z * config_port) :=
  match file with
  | None => ([], Ret ((-1)%Z, port))
  | Some contents => upload_lines (file_lines contents) port []
  end.

(** ** Serial line setup *)

(** [struct termios]. The flag words are [tcflag_t], unsigned and 32 bits
    wide; on such values [x & ~m] clears the bits of [m] and is
    [Z.land x (Z.lnot m)], and neither [&] nor [|] can leave the 32 bits.
    [c_cc] is the array of control characters, read as a function of the
    index. *)
Record termios : Type := {
  c_iflag : Z;
  c_oflag : Z;
  c_cflag : Z;
  c_lflag : Z;
  c_cc : nat -> Z;
  c_ispeed : Z;
  c_ospeed : Z
}.

(** What [<termios.h>] and the C library provide and this file only uses:
    the flag masks, the indexes into [c_cc], the speed codes and the two
    functions that store a speed code in a [termios]. *)
Record platform : Type := {
  CSIZE : Z; CS8 : Z; CSTOPB : Z; CREAD : Z; PARENB : Z; PARODD : Z;
  CLOCAL : Z; CRTSCTS : Z;
  IGNBRK : Z; IXON : Z; IXOFF : Z; IXANY : Z;
  VMIN : nat; VTIME : nat;
  B115200 : Z; B921600 : Z;
  cfsetospeed : termios -> Z -> termios;
  cfsetispeed : termios -> Z -> termios
}.

(** The terminal behind a descriptor: its current settings, and whether
    [tcgetattr] and [tcsetattr] fail on it. *)
Record tty_device : Type := {
  line : termios;
  tcgetattr_fails : bool;
  tcsetattr_fails : bool
}.

Section SerialSetup.

Variable os : platform.

(** [tty.c_cc[index] = value] *)
Definition set_cc (tty : termios) (index : nat) (value : Z) : termios :=
  {| c_iflag := c_iflag tty; c_oflag := c_oflag tty; c_cflag := c_cflag tty;
     c_lflag := c_lflag tty;
     c_cc := fun i => if i =? index then value else c_cc tty i;
     c_ispeed := c_ispeed tty; c_ospeed := c_ospeed tty |}.

Definition set_iflag (tty : termios) (value : Z) : termios :=
  {| c_iflag := value; c_oflag := c_oflag tty; c_cflag := c_cflag tty;
     c_lflag := c_lflag tty; c_cc := c_cc tty;
     c_ispeed := c_ispeed tty; c_ospeed := c_ospeed tty |}.

Definition set_oflag (tty : termios) (value : Z) : termios :=
  {| c_iflag := c_iflag tty; c_oflag := value; c_cflag := c_cflag tty;
     c_lflag := c_lflag tty; c_cc := c_cc tty;
     c_ispeed := c_ispeed tty; c_ospeed := c_ospeed tty |}.

Definition set_cflag (tty : termios) (value : Z) : termios :=
  {| c_iflag := c_iflag tty; c_oflag := c_oflag tty; c_cflag := value;
     c_lflag := c_lflag tty; c_cc := c_cc tty;
     c_ispeed := c_ispeed tty; c_ospeed := c_ospeed tty |}.

Definition set_lflag (tty : termios) (value : Z) : termios :=
  {| c_iflag := c_iflag tty; c_oflag := c_oflag tty; c_cflag := c_cflag tty;
     c_lflag := value; c_cc := c_cc tty;
     c_ispeed := c_ispeed tty; c_ospeed := c_ospeed tty |}.

(** Lines 124 to 135 of [configSerialPort], one assignment after the
    other. *)
Definition line_settings (tty : termios) : termios :=
  let tty := set_cflag tty
               (Z.lor (Z.land (c_cflag tty) (Z.lnot (CSIZE os))) (CS8 os)) in
  let tty := set_iflag tty (Z.land (c_iflag tty) (Z.lnot (IGNBRK os))) in
  let tty := set_lflag tty 0 in
  let tty := set_oflag tty 0 in
  let tty := set_cc tty (VMIN os) 1 in
  let tty := set_cc tty (VTIME os) 5 in
  let tty := set_iflag tty
               (Z.land (c_iflag tty)
                  (Z.lnot (Z.lor (Z.lor (IXON os) (IXOFF os)) (IXANY os)))) in
  let tty := set_cflag tty
               (Z.lor (c_cflag tty) (Z.lor (CLOCAL os) (CREAD os))) in
  let tty := set_cflag tty
               (Z.land (c_cflag tty) (Z.lnot (Z.lor (PARENB os) (PARODD os)))) in
  let tty := set_cflag tty (Z.land (c_cflag tty) (Z.lnot (CSTOPB os))) in
  let tty := set_cflag tty (Z.land (c_cflag tty) (Z.lnot (CRTSCTS os))) in
  tty.

(** [configSerialPort(port_fd, baudRate)] on the terminal behind [port_fd]:
    the return value and the terminal afterwards. *)
Definition configSerialPort (dev : tty_device) (baudRate : Z) : Z * tty_device :=
  if tcgetattr_fails dev then ((-1)%Z, dev) else
  let tty := line dev in
  let tty := cfsetospeed os tty baudRate in
  let tty := cfsetispeed os tty baudRate in
  let tty := line_settings tty in
  if tcsetattr_fails dev then ((-1)%Z, dev) else
  (1%Z,
   {| line := tty;
      tcgetattr_fails := tcgetattr_fails dev;
      tcsetattr_fails := tcsetattr_fails dev |}).

(** What [init] finds outside the program: the descriptors that the two
    calls of [open] return (negative when the call fails), the terminals and
    the line behind them, and the contents of the configuration file when it
    can be opened. The two ports are different devices. *)
Record world : Type := {
  open_configPort : Z;
  open_dataPort : Z;
  configPort_tty : tty_device;
  dataPort_tty : tty_device;
  configPort_line : config_port;
  configFile : option (list ascii)
}.

Definition with_configPort_tty (w : world) (dev : tty_device) : world :=
  {| open_configPort := open_configPort w; open_dataPort := open_dataPort w;
     configPort_tty := dev; dataPort_tty := dataPort_tty w;
     configPort_line := configPort_line w; configFile := configFile w |}.

Definition with_dataPort_tty (w : world) (dev : tty_device) : world :=
  {| open_configPort := open_configPort w; open_dataPort := open_dataPort w;
     configPort_tty := configPort_tty w; dataPort_tty := dev;
     configPort_line := configPort_line w; configFile := configFile w |}.

Definition with_configPort_line (w : world) (io : config_port) : world :=
  {| open_configPort := open_configPort w; open_dataPort := open_dataPort w;
     configPort_tty := configPort_tty w; dataPort_tty := dataPort_tty w;
     configPort_line := io; configFile := configFile w |}.

(** [init(configPort, dataPort, configFilePath)]: what the upload did, the
    return value and the world afterwards. *)
Definition init (w : world) : list upload_event * outcome (Z * world) :=
  let configPort_fd := open_configPort w in
  if (configPort_fd <? 1)%Z then ([], Ret ((-1)%Z, w)) else
  let '(rc, dev) := configSerialPort (configPort_tty w) (B115200 os) in
  let w := with_configPort_tty w dev in
  if (rc <? 1)%Z then ([], Ret ((-1)%Z, w)) else
  let dataPort_fd := open_dataPort w in
  if (dataPort_fd <? 1)%Z then ([], Ret ((-1)%Z, w)) else
  let '(rc, dev) := configSerialPort (dataPort_tty w) (B921600 os) in
  let w := with_dataPort_tty w dev in
  if (rc <? 1)%Z then ([], Ret ((-1)%Z, w)) else
  let '(trace, result) := sendConfigFile (configFile w) (configPort_line w) in
  match result with
  | Ret (rc, io) =>
      let w := with_configPort_line w io in
      if (rc <? 1)%Z then (trace, Ret ((-1)%Z, w)) else (trace, Ret (1%Z, w))
  | Undefined => (trace, Undefined)
  | Diverges => (trace, Diverges)
  end.

End SerialSetup.

(** * Vocabulary of the properties *)

(** The marker occurs in [buf] at offset [i]. *)
Definition marker_at (buf : list byte) (i : nat) : Prop :=
  firstn (length pattern) (skipn i buf) = pattern.

Definition marker_atb (buf : list byte) (i : nat) : bool :=
  starts_with Byte.eqb pattern (skipn i buf).

(** All offsets of [buf] at which the marker occurs, in ascending order: the
    locator as the specification describes it. *)
Definition marker_positions (buf : list byte) : list nat :=
  filter (marker_atb buf) (seq 0 (length buf)).

(** A one-pass scan that tests every offset of [it] in turn; [base] is the
    offset of [it] in the buffer. *)
Fixpoint scan (base : nat) (it : list byte) : list nat :=
  match it with
  | [] => []
  | _ :: it' =>
      if starts_with Byte.eqb pattern it then base :: scan (S base) it'
      else scan (S base) it'
  end.

(** The byte span [[first, last)] of a buffer. *)
Definition span (buf : list byte) (first last : nat) : list byte :=
  firstn (last - first) (skipn first buf).

(** The pairs of consecutive entries of a list. *)
Fixpoint consecutive (l : list nat) : list (nat * nat) :=
  match l with
  | a :: (b :: _) as l' => (a, b) :: consecutive l'
  | _ => []
  end.

(** The frames a buffer yields: for each pair [(s, e)] of consecutive marker
    offsets the span [[s, e - 1)], as [splitIntoSublistsByIndexes] builds it. *)
Definition frames (buf : list byte) : list (list byte) :=
  map (fun se => span buf (fst se) (snd se - 1))
      (consecutive (marker_positions buf)).

(** No byte of the buffer comes before its first marker. *)
Definition no_garbage (buf : list byte) : Prop :=
  hd 0 (marker_positions buf) = 0.

(** The port after a successful [read] of at most 1024 bytes. *)
Definition after_read (port : serial_port) : serial_port :=
  {| rx := skipn 1024 (rx port);
     ioctl_fails := ioctl_fails port;
     read_fails := read_fails port |}.

(** Lines 63 to 91 of [poll]: what happens to the buffer [buf1] that the read
    has just been appended to. *)
Definition carve (SensorData : Type) (mkSensorData : list byte -> SensorData)
    (fuel : nat) (buf1 : list byte) (queue0 : list SensorData)
    : outcome (Z * IWR6843 SensorData) :=
  let indexes := findIndexesOfMagicWord buf1 in
  if length indexes <? 2 then
    Ret (0%Z, {| dataBuffer := buf1; decodedFrameBuffer := queue0 |})
  else
  buf2 <- (if hd 0 indexes =? 0 then Ret buf1 else erase buf1 0 (hd 0 indexes)) ;;
  sublists <- splitIntoSublistsByIndexes buf2 indexes ;;
  queue <- push_loop mkSensorData fuel sublists 0 queue0 ;;
  buf3 <- erase buf2 (hd 0 indexes) (last indexes 0) ;;
  Ret (Z.of_nat (length sublists),
       {| dataBuffer := buf3; decodedFrameBuffer := queue |}).

(** The reassembler after the stream [p] has gone through it: the frames of
    [p] were added to the queue [queue0] and the bytes from the last marker
    of [p] on are buffered. *)
Definition fed (SensorData : Type) (mkSensorData : list byte -> SensorData)
    (queue0 : list SensorData) (p : list byte) : IWR6843 SensorData :=
  {| dataBuffer := skipn (last (marker_positions p) 0) p;
     decodedFrameBuffer := queue0 ++ map mkSensorData (frames p) |}.

(** The objects that the member functions can produce from a newly
    constructed one, whose vectors are empty: [poll] on any state of the data
    port, and [getDecodedFramesFromTop] with any arguments. *)
Inductive reachable (SensorData : Type) (mkSensorData : list byte -> SensorData)
    (fuel : nat) : IWR6843 SensorData -> Prop :=
| reachable_new :
    reachable mkSensorData fuel {| dataBuffer := []; decodedFrameBuffer := [] |}
| reachable_poll (self : IWR6843 SensorData) (port : serial_port) (n : Z)
      (self' : IWR6843 SensorData) (port' : serial_port) :
    reachable mkSensorData fuel self ->
    poll mkSensorData fuel self port = Ret (n, self', port') ->
    reachable mkSensorData fuel self'
| reachable_take (self : IWR6843 SensorData) (num : Z) (del : bool)
      (taken : list SensorData) (self' : IWR6843 SensorData) :
    reachable mkSensorData fuel self ->
    getDecodedFramesFromTop self num del = Ret (taken, self') ->
    reachable mkSensorData fuel self'.

(** The buffer holds at most one marker, or it starts with a marker and holds
    at most 128. *)
Definition few_markers (buf : list byte) : Prop :=
  length (marker_positions buf) <= 1 \/
  (marker_at buf 0 /\ length (marker_positions buf) <= 128).

(** The number of complete frames in a stream. *)
Definition frame_count (p : list byte) : Z :=
  Z.of_nat (length (marker_positions p) - 1).

(** The lines an upload has written, oldest first. *)
Fixpoint transmitted (trace : list upload_event) : list (list ascii) :=
  match trace with
  | [] => []
  | Sent line :: trace' => line :: transmitted trace'
  | Acked _ :: trace' => transmitted trace'
  end.

(** Every write but possibly the last is directly followed by a [break] whose
    response holds "Done" or "Skipped", and nothing else happens. *)
Fixpoint handshake (trace : list upload_event) : bool :=
  match trace with
  | [] => true
  | Sent _ :: trace' =>
      match trace' with
      | [] => true
      | Acked response :: trace'' => acknowledged response && handshake trace''
      | Sent _ :: _ => false
      end
  | Acked _ :: _ => false
  end.

(** The same with no write left unanswered. *)
Fixpoint handshake_complete (trace : list upload_event) : bool :=
  match trace with
  | [] => true
  | Sent _ :: Acked response :: trace' =>
      acknowledged response && handshake_complete trace'
  | _ => false
  end.

(** Both calls of [open] give a descriptor of at least 1 and the terminal
    calls succeed on both ports. *)
Definition lines_ready (w : world) : Prop :=
  (1 <= open_configPort w)%Z /\
  tcgetattr_fails (configPort_tty w) = false /\
  tcsetattr_fails (configPort_tty w) = false /\
  (1 <= open_dataPort w)%Z /\
  tcgetattr_fails (dataPort_tty w) = false /\
  tcsetattr_fails (dataPort_tty w) = false.

(** The terminal with the settings that a successful [configSerialPort]
    gives it. *)
Definition configured (os : platform) (dev : tty_device) (baudRate : Z)
    : tty_device :=
  {| line := line_settings os
               (cfsetispeed os (cfsetospeed os (line dev) baudRate) baudRate);
     tcgetattr_fails := tcgetattr_fails dev;
     tcsetattr_fails := tcsetattr_fails dev |}.

(** ** Test data *)

(** A decoder that keeps the raw bytes of the frame. *)
Definition raw_frame (frame : list byte) : list byte := frame.

Definition MARKER : list byte := pattern.
Definition GARBAGE : list byte := [xaa; xbb; xcc].
Definition GARBAGE9 : list byte := [xa1; xa2; xa3; xa4; xa5; xa6; xa7; xa8; xa9].
Definition PAYLOAD_A : list byte := [x11; x12; x13; x14; x15].
Definition PAYLOAD_B : list byte := [x21; x22; x23; x24; x25].

(** A frame of 1024 bytes followed by the next marker: 1032 bytes, more than
    one [read] takes. *)
Definition LONG_INPUT : list byte := MARKER ++ repeat x00 1016 ++ MARKER.

Definition idle_port : serial_port :=
  {| rx := []; ioctl_fails := false; read_fails := false |}.

Definition broken_port : serial_port :=
  {| rx := PAYLOAD_A; ioctl_fails := true; read_fails := false |}.

(** Two bytes are waiting. *)
Definition waiting_port : serial_port :=
  {| rx := [x31; x32]; ioctl_fails := false; read_fails := false |}.

Definition fresh : IWR6843 (list byte) :=
  {| dataBuffer := []; decodedFrameBuffer := [] |}.

Definition busy : IWR6843 (list byte) :=
  {| dataBuffer := MARKER ++ PAYLOAD_B;
     decodedFrameBuffer := [MARKER ++ PAYLOAD_A; MARKER; PAYLOAD_B] |}.

Definition config_script : list ascii :=
  list_ascii_of_string "% comment

sensorStart
".

Definition answering_device : config_port :=
  {| pending := [];
     script := [Arrives []; Arrives (list_ascii_of_string "Do");
                Arrives (list_ascii_of_string "ne")] |}.

(** Bytes are waiting, but [read] will fail. *)
Definition unreadable_port : serial_port :=
  {| rx := PAYLOAD_A; ioctl_fails := false; read_fails := true |}.

(** A stream of 1045 bytes in three chunks. *)
Definition LONG_CHUNKS : list (list byte) :=
  [firstn 516 LONG_INPUT; skipn 516 LONG_INPUT; PAYLOAD_A ++ MARKER].

Definition comment_script : list ascii :=
  list_ascii_of_string "% profile

%end".

(** The speed functions of the GNU C library on Linux: a speed code with
    bits outside CBAUD that is not one of B57600 to B4000000 is refused and
    the [termios] left as it is; otherwise the code is stored in the speed
    field and replaces the CBAUD and CBAUDEX bits of [c_cflag].
    [cfsetispeed] sets IBAUD0 in [c_iflag] for the code 0 and leaves
    [c_cflag] alone then, and clears IBAUD0 for every other code. The return
    value is not used by [configSerialPort]. *)
Definition glibc_speed_refused (CBAUD B57600 MAX_BAUD speed : Z) : bool :=
  negb (Z.land speed (Z.lnot CBAUD) =? 0)%Z &&
  ((speed <? B57600)%Z || (MAX_BAUD <? speed)%Z).

Definition glibc_cfsetospeed (CBAUD CBAUDEX B57600 MAX_BAUD : Z)
    (tty : termios) (speed : Z) : termios :=
  if glibc_speed_refused CBAUD B57600 MAX_BAUD speed then tty else
  {| c_iflag := c_iflag tty; c_oflag := c_oflag tty;
     c_cflag := Z.lor (Z.land (c_cflag tty) (Z.lnot (Z.lor CBAUD CBAUDEX))) speed;
     c_lflag := c_lflag tty; c_cc := c_cc tty;
     c_ispeed := c_ispeed tty; c_ospeed := speed |}.

Definition glibc_cfsetispeed (CBAUD CBAUDEX B57600 MAX_BAUD IBAUD0 : Z)
    (tty : termios) (speed : Z) : termios :=
  if glibc_speed_refused CBAUD B57600 MAX_BAUD speed then tty else
  if (speed =? 0)%Z then
    {| c_iflag := Z.lor (c_iflag tty) IBAUD0; c_oflag := c_oflag tty;
       c_cflag := c_cflag tty; c_lflag := c_lflag tty; c_cc := c_cc tty;
       c_ispeed := speed; c_ospeed := c_ospeed tty |}
  else
    {| c_iflag := Z.land (c_iflag tty) (Z.lnot IBAUD0); c_oflag := c_oflag tty;
       c_cflag := Z.lor (Z.land (c_cflag tty) (Z.lnot (Z.lor CBAUD CBAUDEX))) speed;
       c_lflag := c_lflag tty; c_cc := c_cc tty;
       c_ispeed := speed; c_ospeed := c_ospeed tty |}.

(** The constants of Linux on x86 ([asm-generic/termbits.h]: CBAUD 4111,
    CBAUDEX 4096, B57600 4097, B4000000 4111, IBAUD0 2^31) with the speed
    functions of the GNU C library. *)
Definition linux_x86 : platform :=
  {| CSIZE := 48; CS8 := 48; CSTOPB := 64; CREAD := 128; PARENB := 256;
     PARODD := 512; CLOCAL := 2048; CRTSCTS := 2147483648;
     IGNBRK := 1; IXON := 1024; IXOFF := 4096; IXANY := 2048;
     VMIN := 6; VTIME := 5;
     B115200 := 4098; B921600 := 4103;
     cfsetospeed := glibc_cfsetospeed 4111 4096 4097 4111;
     cfsetispeed := glibc_cfsetispeed 4111 4096 4097 4111 2147483648 |}.

(** A terminal in canonical mode with echo, parity, two stop bits, 7 bit
    characters, software flow control and CR to NL translation. *)
Definition cooked_tty : tty_device :=
  {| line := {| c_iflag := 1 + 256 + 1024 + 4096; c_oflag := 5;
                c_cflag := 32 + 64 + 256 + 512; c_lflag := 35387;
                c_cc := fun _ => 0%Z; c_ispeed := 13; c_ospeed := 13 |};
     tcgetattr_fails := false; tcsetattr_fails := false |}.

Definition ready_world : world :=
  {| open_configPort := 3; open_dataPort := 4;
     configPort_tty := cooked_tty; dataPort_tty := cooked_tty;
     configPort_line := answering_device;
     configFile := Some config_script |}.

(** The settings of [cooked_tty] once both speed functions have stored
    B115200 in them. *)
Definition speed_set_tty : termios :=
  cfsetispeed linux_x86 (cfsetospeed linux_x86 (line cooked_tty) 4098) 4098.

(** The object after one [poll] on 9 stray bytes, a frame and the start of
    the next one. *)
Definition shifted : IWR6843 (list byte) :=
  {| dataBuffer := MARKER ++ [x11; x22; x23; x24; x25];
     decodedFrameBuffer := [[x12; x13; x14; x15] ++ MARKER] |}.

(** The terminal of [cooked_tty] after a successful setup at B115200. *)
Definition raw_tty : termios := line (configured linux_x86 cooked_tty 4098).

(** * Properties *)

(** ** Searching *)

Section SearchFacts.

Variable A : Type.
Variable eqb : A -> A -> bool.
Hypothesis eqb_spec : forall x y, eqb x y = true <-> x = y.

Lemma starts_with_iff pat it :
  starts_with eqb pat it = true <-> firstn (length pat) it = pat.
Proof.
  revert it; induction pat as [|p pat IH]; intros [|x it]; simpl;
    try (split; [reflexivity | reflexivity || discriminate]);
    try (split; discriminate).
  rewrite andb_true_iff, eqb_spec, IH. split.
  - intros [-> ->]. reflexivity.
  - intros E. injection E as -> E. split; auto.
Qed.

Lemma search_cons_starts it pat x r :
  search eqb it pat = x :: r -> starts_with eqb pat (x :: r) = true.
Proof.
  induction it as [|y it IH]; simpl; [discriminate|].
  destruct (starts_with eqb pat (y :: it)) eqn:E; [intros <-; exact E | exact IH].
Qed.

End SearchFacts.

Lemma byte_eqb_spec (x y : byte) : Byte.eqb x y = true <-> x = y.
Proof. split; [apply byte_dec_bl | apply byte_dec_lb]. Qed.

(** ** The model on small inputs *)

Example find_two_markers :
  findIndexesOfMagicWord (GARBAGE ++ MARKER ++ PAYLOAD_A ++ MARKER ++ [x09])
  = [3; 16].
Proof. reflexivity. Qed.

Example find_split_marker :
  findIndexesOfMagicWord (firstn 5 MARKER ++ PAYLOAD_A ++ skipn 5 MARKER) = [].
Proof. reflexivity. Qed.

Example split_without_indexes :
  splitIntoSublistsByIndexes MARKER [] = Undefined.
Proof. reflexivity. Qed.

Example split_outside_buffer :
  splitIntoSublistsByIndexes MARKER [0; 9] = Undefined.
Proof. reflexivity. Qed.

Example getline_lines :
  file_lines (list_ascii_of_string "a

b") = map list_ascii_of_string ["a"; ""; "b"]%string.
Proof. reflexivity. Qed.

Example take_too_many :
  getDecodedFramesFromTop busy 4 true = Undefined.
Proof. reflexivity. Qed.

Example take_negative :
  getDecodedFramesFromTop busy (-1) false = Undefined.
Proof. reflexivity. Qed.

(** ** The locator *)

Lemma marker_atb_iff buf i : marker_atb buf i = true <-> marker_at buf i.
Proof. apply starts_with_iff, byte_eqb_spec. Qed.

Lemma find_loop_step buf it idx :
  find_loop buf it idx =
  match search Byte.eqb it pattern with
  | [] => idx
  | x :: it' => find_loop buf it' (idx ++ [length buf - length (x :: it')])
  end.
Proof.
  rewrite find_loop_equation_1.
  destruct (inspect (search Byte.eqb it pattern)) as [[|x it'] e].
  - rewrite find_loop_clause_1_equation_1, e. reflexivity.
  - rewrite find_loop_clause_1_equation_2, e. reflexivity.
Qed.

(** What [search] skips contains no match, and it stops on a match. *)
Lemma scan_search base it :
  match search Byte.eqb it pattern with
  | [] => scan base it = []
  | x :: it' =>
      length (x :: it') <= length it /\
      scan base it =
        (base + (length it - length (x :: it')))
          :: scan (S (base + (length it - length (x :: it')))) it'
  end.
Proof.
  revert base; induction it as [|y it IH]; intros base; [reflexivity|].
  cbn [search scan].
  destruct (starts_with Byte.eqb pattern (y :: it)) eqn:E.
  - split; [lia|]. rewrite Nat.sub_diag, Nat.add_0_r. reflexivity.
  - specialize (IH (S base)).
    destruct (search Byte.eqb it pattern) as [|x it'] eqn:Es; [exact IH|].
    destruct IH as [Hle IH]. split; [simpl in *; lia|].
    rewrite IH. simpl in Hle.
    replace (base + (length (y :: it) - length (x :: it')))
      with (S base + (length it - length (x :: it'))) by (simpl; lia).
    reflexivity.
Qed.

Lemma find_loop_scan buf : forall n it idx,
  length it <= n -> length it <= length buf ->
  find_loop buf it idx = idx ++ scan (length buf - length it) it.
Proof.
  induction n as [|n IH]; intros it idx Hn Hb.
  - destruct it; [|simpl in Hn; lia].
    rewrite find_loop_step. simpl. now rewrite app_nil_r.
  - rewrite find_loop_step.
    pose proof (scan_search (length buf - length it) it) as Hs.
    destruct (search Byte.eqb it pattern) as [|x it'] eqn:Es.
    + rewrite Hs. now rewrite app_nil_r.
    + destruct Hs as [Hle Hs]. simpl in Hle.
      rewrite IH, Hs, <- app_assoc by lia. simpl.
      replace (length buf - length it + (length it - S (length it')))
        with (length buf - S (length it')) by lia.
      replace (S (length buf - S (length it')))
        with (length buf - length it') by lia.
      reflexivity.
Qed.

Lemma scan_shift base it : scan (S base) it = map S (scan base it).
Proof.
  revert base; induction it as [|x it IH]; intros base; [reflexivity|].
  cbn [scan]. destruct (starts_with Byte.eqb pattern (x :: it));
    simpl; now rewrite IH.
Qed.

Lemma filter_seq_shift (f : nat -> bool) n :
  filter f (seq 1 n) = map S (filter (fun i => f (S i)) (seq 0 n)).
Proof.
  rewrite <- seq_shift. induction (seq 0 n) as [|i l IH]; [reflexivity|].
  simpl. destruct (f (S i)); simpl; now rewrite IH.
Qed.

Lemma scan_positions buf : scan 0 buf = marker_positions buf.
Proof.
  unfold marker_positions.
  induction buf as [|x buf IH]; [reflexivity|].
  cbn [scan length seq filter]. unfold marker_atb at 1. cbn [skipn].
  rewrite scan_shift, IH, filter_seq_shift.
  destruct (starts_with Byte.eqb pattern (x :: buf)); reflexivity.
Qed.

Lemma findIndexesOfMagicWord_positions buf :
  findIndexesOfMagicWord buf = marker_positions buf.
Proof.
  unfold findIndexesOfMagicWord.
  rewrite (@find_loop_scan buf (length buf)) by lia.
  rewrite Nat.sub_diag. apply scan_positions.
Qed.

Lemma marker_positions_In buf i : In i (marker_positions buf) <-> marker_at buf i.
Proof.
  unfold marker_positions. rewrite filter_In, in_seq, marker_atb_iff.
  split; [tauto|]. intros H. split; [|exact H]. split; [lia|].
  destruct (Nat.lt_ge_cases i (length buf)) as [Hlt|Hge]; [simpl; lia|].
  unfold marker_at in H. rewrite skipn_all2 in H by exact Hge. discriminate H.
Qed.

Lemma filter_seq_sorted (f : nat -> bool) n a :
  StronglySorted lt (filter f (seq a n)).
Proof.
  revert a; induction n as [|n IH]; intros a; simpl; [constructor|].
  destruct (f a); [|apply IH]. constructor; [apply IH|].
  apply Forall_forall. intros j Hj. apply filter_In in Hj.
  destruct Hj as [Hj _]. apply in_seq in Hj. lia.
Qed.

Lemma marker_positions_sorted buf : StronglySorted lt (marker_positions buf).
Proof. apply filter_seq_sorted. Qed.

Lemma sorted_lt_NoDup (l : list nat) : StronglySorted lt l -> NoDup l.
Proof.
  induction 1 as [|a l Hs IH Hall]; constructor; [|exact IH].
  intros Hin. rewrite Forall_forall in Hall. specialize (Hall a Hin). lia.
Qed.

(** The bytes under an occurrence of the marker. *)
Lemma marker_at_nth buf i k :
  marker_at buf i -> k < length pattern ->
  nth_error buf (i + k) = nth_error pattern k.
Proof.
  unfold marker_at. intros H Hk.
  rewrite <- H. rewrite nth_error_firstn.
  destruct (Nat.ltb_spec k (length pattern)) as [_|]; [|lia].
  now rewrite nth_error_skipn.
Qed.

(** The eight bytes of the marker are pairwise distinct, so two occurrences
    never overlap. *)
Lemma markers_do_not_overlap buf i j :
  marker_at buf i -> marker_at buf j -> i < j -> i + length pattern <= j.
Proof.
  intros Hi Hj Hlt.
  destruct (Nat.le_gt_cases (i + length pattern) j) as [|Hov]; [assumption|].
  exfalso.
  pose proof (@marker_at_nth buf i (j - i) Hi ltac:(lia)) as H1.
  pose proof (@marker_at_nth buf j 0 Hj ltac:(simpl; lia)) as H2.
  replace (i + (j - i)) with j in H1 by lia.
  rewrite Nat.add_0_r, H1 in H2.
  assert (Hd : 0 < j - i < 8) by (simpl in Hov; lia).
  destruct (j - i) as [|[|[|[|[|[|[|[|d]]]]]]]];
    try lia; simpl in H2; discriminate H2.
Qed.

(** C5. For every byte buffer, [findIndexesOfMagicWord] returns the strictly
    ascending sequence of all offsets at which the 8-byte marker
    02 01 04 03 06 05 08 07 occurs. After a match whose first byte is at the
    head of [x :: it'] the scan resumes at [it'], one byte further. Two
    reported offsets are at least a marker length apart, a buffer with K
    occurrences yields exactly K indexes, and a buffer with no occurrence
    yields the empty sequence. *)
Theorem findIndexesOfMagicWord_correct (buf : list byte) :
  pattern = [x02; x01; x04; x03; x06; x05; x08; x07] /\
  findIndexesOfMagicWord buf = marker_positions buf /\
  StronglySorted lt (findIndexesOfMagicWord buf) /\
  (forall i, In i (findIndexesOfMagicWord buf) <-> marker_at buf i) /\
  (forall it x it' idx,
      search Byte.eqb it pattern = x :: it' ->
      find_loop buf it idx =
      find_loop buf it' (idx ++ [length buf - length (x :: it')])) /\
  (forall i j,
      In i (findIndexesOfMagicWord buf) -> In j (findIndexesOfMagicWord buf) ->
      i < j -> i + 8 <= j) /\
  (forall ps : list nat,
      NoDup ps -> (forall i, In i ps <-> marker_at buf i) ->
      length (findIndexesOfMagicWord buf) = length ps) /\
  ((forall i, ~ marker_at buf i) -> findIndexesOfMagicWord buf = []).
Proof.
  rewrite findIndexesOfMagicWord_positions.
  repeat split.
  - apply marker_positions_sorted.
  - apply marker_positions_In.
  - apply marker_positions_In.
  - intros it x it' idx Hs. rewrite find_loop_step, Hs. reflexivity.
  - intros i j Hi Hj Hlt. apply marker_positions_In in Hi, Hj.
    exact (markers_do_not_overlap Hi Hj Hlt).
  - intros ps Hnd Hps. apply Permutation_length, NoDup_Permutation.
    + apply sorted_lt_NoDup, marker_positions_sorted.
    + exact Hnd.
    + intros i. rewrite marker_positions_In, Hps. reflexivity.
  - intros Hnone. destruct (marker_positions buf) as [|i l] eqn:E; [reflexivity|].
    exfalso. apply (Hnone i), marker_positions_In. rewrite E. now left.
Qed.


Lemma marker_at_bound buf i : marker_at buf i -> i + length pattern <= length buf.
Proof.
  unfold marker_at. intros H.
  assert (Hl : length (firstn (length pattern) (skipn i buf)) = length pattern)
    by now rewrite H.
  rewrite length_firstn, length_skipn in Hl.
  change (length pattern) with 8 in *. lia.
Qed.

(** ** Frame carving *)

Lemma split_loop_frames buf indexes : forall n i acc res,
  split_loop buf indexes n i acc = Ret res ->
  exists new,
    res = acc ++ new /\ length new = n /\
    forall k, k < n ->
      exists s e,
        nth_error indexes (i + k) = Some s /\
        nth_error indexes (S (i + k)) = Some e /\
        nth_error new k = Some (span buf s (e - 1)).
Proof.
  induction n as [|n IH]; intros i acc res; cbn [split_loop].
  - intros [= <-]. exists []. rewrite app_nil_r. repeat split. intros k Hk. lia.
  - destruct (nth_error indexes i) as [s|] eqn:Es; [|discriminate].
    rewrite Nat.add_1_r.
    destruct (nth_error indexes (S i)) as [e|] eqn:Ee; [|discriminate].
    destruct ((e =? 0) || (length buf <? e)); [discriminate|].
    unfold range.
    destruct ((s <=? e - 1) && (e - 1 <=? length buf)); [|discriminate].
    cbn [bind]. intros Hrec. apply IH in Hrec.
    destruct Hrec as (new & -> & Hlen & Hnew).
    exists (span buf s (e - 1) :: new). rewrite <- app_assoc.
    repeat split; [simpl; lia|].
    intros [|k] Hk.
    + exists s, e. rewrite Nat.add_0_r. auto.
    + destruct (Hnew k ltac:(lia)) as (s' & e' & H1 & H2 & H3).
      exists s', e'. rewrite Nat.add_succ_r. auto.
Qed.

(** Whatever [splitIntoSublistsByIndexes] returns, there is one sublist per
    pair of consecutive indexes [(s, e)], and it is the span [[s, e - 1)]. *)
Lemma splitIntoSublistsByIndexes_frames buf indexes sublists :
  splitIntoSublistsByIndexes buf indexes = Ret sublists ->
  S (length sublists) = length indexes /\
  forall k s e,
    nth_error indexes k = Some s -> nth_error indexes (S k) = Some e ->
    nth_error sublists k = Some (span buf s (e - 1)).
Proof.
  unfold splitIntoSublistsByIndexes.
  destruct indexes as [|a l] eqn:E; [discriminate|]. rewrite <- E.
  intros H. apply split_loop_frames in H.
  destruct H as (new & -> & Hlen & Hnew). cbn [app].
  assert (Hl : length indexes = S (length l)) by (rewrite E; reflexivity).
  split; [lia|].
  intros k s e Hs He.
  assert (Hk : k < length indexes - 1).
  { assert (Hne : nth_error indexes (S k) <> None) by congruence.
    apply nth_error_Some in Hne. lia. }
  destruct (Hnew k Hk) as (s' & e' & H1 & H2 & H3). cbn [Nat.add] in H1, H2.
  congruence.
Qed.

(** For ascending indexes inside the buffer nothing is undefined. *)
Lemma split_loop_defined buf indexes : forall n i acc,
  (forall k, i <= k < i + n ->
     nth k indexes 0 < nth (S k) indexes 0 <= length buf /\
     S k < length indexes) ->
  split_loop buf indexes n i acc =
  Ret (acc ++ map (fun k => span buf (nth k indexes 0) (nth (S k) indexes 0 - 1))
                  (seq i n)).
Proof.
  induction n as [|n IH]; intros i acc H; cbn [split_loop seq map].
  - now rewrite app_nil_r.
  - destruct (H i ltac:(lia)) as [[Hlt Hle] Hi].
    rewrite Nat.add_1_r.
    rewrite (nth_error_nth' indexes 0) by lia.
    rewrite (nth_error_nth' indexes 0) by lia.
    set (s := nth i indexes 0) in *. set (e := nth (S i) indexes 0) in *.
    replace (e =? 0) with false by (symmetry; apply Nat.eqb_neq; lia).
    replace (length buf <? e) with false by (symmetry; apply Nat.ltb_ge; lia).
    unfold range.
    replace (s <=? e - 1) with true by (symmetry; apply Nat.leb_le; lia).
    replace (e - 1 <=? length buf) with true by (symmetry; apply Nat.leb_le; lia).
    cbn [orb andb bind]. rewrite IH, <- app_assoc; [reflexivity|].
    intros k Hk. apply H. lia.
Qed.

(** ** The push loop and its 8-bit counter *)

Lemma skipn_nth_error (T : Type) (l : list T) : forall i x,
  nth_error l i = Some x -> skipn i l = x :: skipn (S i) l.
Proof.
  induction l as [|y l IH]; intros [|i] x; simpl; try discriminate.
  - now intros [= ->].
  - intros H. now rewrite (IH _ _ H).
Qed.

Section PushLoop.

Variable SensorData : Type.
Variable mkSensorData : list byte -> SensorData.

(** Up to 255 sublists the loop appends one decoded frame per sublist. *)
Lemma push_loop_returns : forall fuel sublists i queue,
  length sublists <= 255 -> i <= length sublists ->
  length sublists - i < fuel ->
  push_loop mkSensorData fuel sublists (Z.of_nat i) queue =
  Ret (queue ++ map mkSensorData (skipn i sublists)).
Proof.
  induction fuel as [|fuel IH]; intros sublists i queue Hmax Hi Hfuel; [lia|].
  cbn [push_loop].
  destruct (Z.ltb_spec (Z.of_nat i) (Z.of_nat (length sublists))) as [Hlt|Hge].
  - rewrite Nat2Z.id.
    destruct (nth_error sublists i) as [x|] eqn:Ex.
    + replace ((Z.of_nat i + 1) mod 256)%Z with (Z.of_nat (S i))
        by (rewrite Z.mod_small; lia).
      rewrite IH by lia.
      rewrite (skipn_nth_error _ _ Ex). cbn [map].
      rewrite <- app_assoc. reflexivity.
    + apply nth_error_None in Ex. lia.
  - rewrite skipn_all2 by lia. cbn [map]. now rewrite app_nil_r.
Qed.

(** From 256 sublists on the counter wraps around before it reaches the
    bound: the loop never ends. *)
Lemma push_loop_wraps : forall fuel sublists i queue,
  256 <= length sublists -> (0 <= i < 256)%Z ->
  push_loop mkSensorData fuel sublists i queue = Diverges.
Proof.
  induction fuel as [|fuel IH]; intros sublists i queue Hlen Hi; [reflexivity|].
  cbn [push_loop].
  destruct (Z.ltb_spec i (Z.of_nat (length sublists))) as [Hlt|Hge]; [|lia].
  destruct (nth_error sublists (Z.to_nat i)) as [x|] eqn:Ex.
  - apply IH; [assumption|]. apply Z.mod_pos_bound. lia.
  - apply nth_error_None in Ex. lia.
Qed.

End PushLoop.

(** ** The polling state machine *)

Lemma firstn_min_length (T : Type) (k : nat) (l : list T) :
  firstn (Nat.min k (length l)) l = firstn k l.
Proof.
  destruct (Nat.le_ge_cases k (length l)) as [H|H].
  - now rewrite Nat.min_l.
  - rewrite Nat.min_r, firstn_all, firstn_all2 by assumption. reflexivity.
Qed.

Lemma skipn_min_length (T : Type) (k : nat) (l : list T) :
  skipn (Nat.min k (length l)) l = skipn k l.
Proof.
  destruct (Nat.le_ge_cases k (length l)) as [H|H].
  - now rewrite Nat.min_l.
  - rewrite Nat.min_r, skipn_all, skipn_all2 by assumption. reflexivity.
Qed.

Section PollFacts.

Variable SensorData : Type.
Variable mkSensorData : list byte -> SensorData.

(** With a working port and bytes waiting, [poll] appends the first 1024 of
    them and carves. *)
Lemma poll_reads (fuel : nat) (self : IWR6843 SensorData) (port : serial_port) :
  ioctl_fails port = false -> read_fails port = false -> rx port <> [] ->
  poll mkSensorData fuel self port =
  (r <- carve mkSensorData fuel (dataBuffer self ++ firstn 1024 (rx port))
          (decodedFrameBuffer self) ;;
   Ret (fst r, snd r, after_read port)).
Proof.
  intros Hio Hrd Hrx.
  unfold poll, carve, ioctl_FIONREAD, read, insert_end, after_read.
  rewrite Hio, Hrd. cbn [Z.eqb].
  assert (Hlen : 0 < length (rx port))
    by (destruct (rx port); simpl; [congruence|lia]).
  replace (Z.of_nat (length (rx port)) <? 1)%Z with false
    by (symmetry; apply Z.ltb_ge; lia).
  replace (Nat.min (Z.to_nat (Z.min (Z.of_nat (length (rx port))) 1024))
             (length (rx port)))
    with (Nat.min 1024 (length (rx port))) by lia.
  rewrite Nat2Z.id, firstn_min_length, skipn_min_length.
  replace (0 <=? Z.of_nat (Nat.min 1024 (length (rx port))))%Z with true
    by (symmetry; apply Z.leb_le; lia).
  replace (Z.of_nat (Nat.min 1024 (length (rx port)))
             <=? Z.of_nat (length (firstn 1024 (rx port))))%Z with true
    by (symmetry; apply Z.leb_le; rewrite length_firstn; lia).
  cbn [andb bind].
  rewrite firstn_firstn.
  replace (Nat.min (Nat.min 1024 (length (rx port))) 1024)
    with (Nat.min 1024 (length (rx port))) by lia.
  rewrite firstn_min_length.
  set (buf1 := dataBuffer self ++ firstn 1024 (rx port)).
  destruct (length (findIndexesOfMagicWord buf1) <? 2); [reflexivity|].
  destruct (if hd 0 (findIndexesOfMagicWord buf1) =? 0 then Ret buf1
            else erase buf1 0 (hd 0 (findIndexesOfMagicWord buf1)))
    as [buf2| |]; cbn [bind]; try reflexivity.
  destruct (splitIntoSublistsByIndexes buf2 (findIndexesOfMagicWord buf1))
    as [sublists| |]; cbn [bind]; try reflexivity.
  destruct (push_loop mkSensorData fuel sublists 0 (decodedFrameBuffer self))
    as [queue| |]; cbn [bind]; try reflexivity.
  destruct (erase buf2 (hd 0 (findIndexesOfMagicWord buf1))
              (last (findIndexesOfMagicWord buf1) 0))
    as [buf3| |]; cbn [bind]; reflexivity.
Qed.

(** C7. For every state of the reassembler, a [poll] for which the port
    reports zero available bytes returns 0 and leaves the byte buffer, the
    decoded-frame queue and the port unchanged. *)
Theorem poll_idle_noop (fuel : nat) (self : IWR6843 SensorData) (port : serial_port) :
  fst (ioctl_FIONREAD port) <> (-1)%Z ->
  snd (ioctl_FIONREAD port) = 0%Z ->
  poll mkSensorData fuel self port = Ret (0%Z, self, port).
Proof.
  unfold poll. destruct (ioctl_FIONREAD port) as [rc bytesAvailable].
  cbn [fst snd]. intros Hrc ->.
  destruct (Z.eqb_spec rc (-1)); [contradiction|]. reflexivity.
Qed.

(** C10. If the availability query at the start of [poll] fails, [poll]
    returns -1; the port it leaves is the port it found, with every waiting
    byte still in the receive queue (no [read] took place), and the byte
    buffer and the decoded-frame queue are left as they were. *)
Theorem poll_ioctl_failure (fuel : nat) (self : IWR6843 SensorData) (port : serial_port) :
  fst (ioctl_FIONREAD port) = (-1)%Z ->
  poll mkSensorData fuel self port = Ret ((-1)%Z, self, port).
Proof.
  unfold poll. destruct (ioctl_FIONREAD port) as [rc bytesAvailable].
  cbn [fst]. intros ->. reflexivity.
Qed.

(** C6. Whenever the byte buffer, after the newly read bytes are appended,
    holds fewer than two boundary indexes, [poll] returns 0, the buffer is
    the old buffer followed by the bytes read, nothing erased, and the
    decoded-frame queue is unchanged. *)
Theorem poll_partial_frame_retained
    (fuel : nat) (self : IWR6843 SensorData) (port : serial_port) :
  ioctl_fails port = false -> read_fails port = false ->
  length (findIndexesOfMagicWord (dataBuffer self ++ firstn 1024 (rx port))) < 2 ->
  poll mkSensorData fuel self port =
  Ret (0%Z,
       {| dataBuffer := dataBuffer self ++ firstn 1024 (rx port);
          decodedFrameBuffer := decodedFrameBuffer self |},
       after_read port).
Proof.
  intros Hio Hrd Hidx.
  destruct (rx port) as [|b rx'] eqn:Hrx.
  - unfold poll, ioctl_FIONREAD, after_read. rewrite Hio, Hrx. cbn.
    destruct self, port. simpl in *. subst. now rewrite app_nil_r.
  - rewrite poll_reads by (rewrite ?Hrx; congruence).
    unfold carve. rewrite Hrx.
    apply Nat.ltb_lt in Hidx. rewrite Hidx. reflexivity.
Qed.

End PollFacts.

(** ** The queue accessors *)

Section QueueFacts.

Variable SensorData : Type.

(** C8. For every queue and every count [n] that does not exceed the length
    of the queue, [getDecodedFramesFromTop(n, true)] returns the first [n]
    entries in their order, a following [getDecodedFrameBuffer] returns the
    remaining entries in their order, and [getDecodedFramesFromTop(n, false)]
    returns the same first [n] entries and leaves the object as it was. *)
Theorem getDecodedFramesFromTop_fifo (self : IWR6843 SensorData) (n : nat) :
  n <= length (decodedFrameBuffer self) ->
  let queue := decodedFrameBuffer self in
  exists self',
    getDecodedFramesFromTop self (Z.of_nat n) true = Ret (firstn n queue, self') /\
    getDecodedFrameBuffer self' = skipn n queue /\
    dataBuffer self' = dataBuffer self /\
    queue = firstn n queue ++ getDecodedFrameBuffer self' /\
    getDecodedFramesFromTop self (Z.of_nat n) false = Ret (firstn n queue, self).
Proof.
  intros Hn queue.
  exists {| dataBuffer := dataBuffer self; decodedFrameBuffer := skipn n queue |}.
  unfold getDecodedFramesFromTop, getDecodedFrameBuffer, range, erase.
  fold queue. cbn [decodedFrameBuffer dataBuffer]. rewrite Nat2Z.id.
  replace (Z.of_nat n <? 0)%Z with false by (symmetry; apply Z.ltb_ge; lia).
  replace (Z.of_nat (length queue) <? Z.of_nat n)%Z with false
    by (symmetry; apply Z.ltb_ge; subst queue; lia).
  replace (n <=? length queue) with true
    by (symmetry; apply Nat.leb_le; subst queue; lia).
  cbn. rewrite Nat.sub_0_r, firstn_skipn. repeat split; reflexivity.
Qed.

End QueueFacts.


(** ** Ascending lists of offsets *)

Lemma sorted_ext (l1 : list nat) : forall l2,
  StronglySorted lt l1 -> StronglySorted lt l2 ->
  (forall i, In i l1 <-> In i l2) -> l1 = l2.
Proof.
  induction l1 as [|a l1 IH]; intros [|b l2] H1 H2 Hin.
  - reflexivity.
  - exfalso. apply (proj2 (Hin b)). now left.
  - exfalso. apply (proj1 (Hin a)). now left.
  - apply StronglySorted_inv in H1, H2.
    destruct H1 as [H1 Ha], H2 as [H2 Hb].
    rewrite Forall_forall in Ha, Hb.
    assert (a = b) as <-.
    { destruct (proj1 (Hin a) (or_introl eq_refl)) as [E|Hal]; [now symmetry|].
      destruct (proj2 (Hin b) (or_introl eq_refl)) as [E|Hbl]; [exact E|].
      specialize (Ha _ Hbl). specialize (Hb _ Hal). lia. }
    f_equal. apply IH; try assumption.
    intros i. split; intros Hi.
    + destruct (proj1 (Hin i) (or_intror Hi)) as [E|]; [|assumption].
      specialize (Ha _ Hi). lia.
    + destruct (proj2 (Hin i) (or_intror Hi)) as [E|]; [|assumption].
      specialize (Hb _ Hi). lia.
Qed.

Lemma sorted_nth_lt (l : list nat) : forall k,
  StronglySorted lt l -> S k < length l -> nth k l 0 < nth (S k) l 0.
Proof.
  induction l as [|a l IH]; intros k Hs Hk; [simpl in Hk; lia|].
  apply StronglySorted_inv in Hs. destruct Hs as [Hs Ha].
  destruct k as [|k].
  - rewrite Forall_forall in Ha. apply Ha.
    destruct l; [simpl in Hk; lia|]. now left.
  - cbn [nth]. apply IH; [assumption|]. simpl in Hk. lia.
Qed.

Lemma last_In (l : list nat) : l <> [] -> In (last l 0) l.
Proof.
  induction l as [|a l IH]; [congruence|]. intros _.
  destruct l as [|b l]; [now left|]. right. apply IH. discriminate.
Qed.

Lemma sorted_last_max (l : list nat) i :
  StronglySorted lt l -> In i l -> i <= last l 0.
Proof.
  induction l as [|a l IH]; [contradiction|]. intros Hs Hi.
  apply StronglySorted_inv in Hs. destruct Hs as [Hs Ha].
  destruct l as [|b l]; [destruct Hi as [->|[]]; simpl; lia|].
  change (last (a :: b :: l) 0) with (last (b :: l) 0).
  destruct Hi as [->|Hi]; [|now apply IH].
  rewrite Forall_forall in Ha.
  specialize (Ha (last (b :: l) 0) (@last_In (b :: l) ltac:(discriminate))). lia.
Qed.

Lemma consecutive_seq (l : list nat) :
  consecutive l =
  map (fun k => (nth k l 0, nth (S k) l 0)) (seq 0 (length l - 1)).
Proof.
  induction l as [|a l IH]; [reflexivity|].
  destruct l as [|b l]; [reflexivity|].
  change (consecutive (a :: b :: l)) with ((a, b) :: consecutive (b :: l)).
  rewrite IH.
  replace (length (a :: b :: l) - 1) with (S (length l)) by (simpl; lia).
  replace (length (b :: l) - 1) with (length l) by (simpl; lia).
  cbn [seq map nth]. rewrite <- seq_shift, map_map. reflexivity.
Qed.

Lemma consecutive_app (l1 l2 : list nat) :
  l1 <> [] ->
  consecutive (l1 ++ l2) = consecutive l1 ++ consecutive (last l1 0 :: l2).
Proof.
  induction l1 as [|a l1 IH]; [congruence|]. intros _.
  destruct l1 as [|b l1]; [reflexivity|].
  change (consecutive ((a :: b :: l1) ++ l2))
    with ((a, b) :: consecutive ((b :: l1) ++ l2)).
  rewrite IH by discriminate. reflexivity.
Qed.

Lemma consecutive_map (f : nat -> nat) (l : list nat) :
  consecutive (map f l) = map (fun se => (f (fst se), f (snd se))) (consecutive l).
Proof.
  induction l as [|a l IH]; [reflexivity|].
  destruct l as [|b l]; [reflexivity|].
  change (consecutive (map f (a :: b :: l)))
    with ((f a, f b) :: consecutive (map f (b :: l))).
  rewrite IH. reflexivity.
Qed.

Lemma consecutive_In (l : list nat) s e :
  In (s, e) (consecutive l) -> In s l /\ In e l.
Proof.
  induction l as [|a l IH]; [contradiction|].
  destruct l as [|b l]; [contradiction|].
  change (consecutive (a :: b :: l)) with ((a, b) :: consecutive (b :: l)).
  intros [[= <- <-]|H].
  - split; [now left | right; now left].
  - destruct (IH H). split; now right.
Qed.

(** ** Carving a buffer that starts with a marker *)

Section Carving.

Variable SensorData : Type.
Variable mkSensorData : list byte -> SensorData.

(** When the buffer starts with a marker, the frames between consecutive
    markers are enqueued and exactly the bytes from the last marker on are
    kept. *)
Lemma carve_aligned (fuel : nat) (buf : list byte) (queue : list SensorData) :
  2 <= length (marker_positions buf) <= 256 ->
  no_garbage buf ->
  length (marker_positions buf) <= fuel ->
  carve mkSensorData fuel buf queue =
  Ret (Z.of_nat (length (marker_positions buf) - 1),
       {| dataBuffer := skipn (last (marker_positions buf) 0) buf;
          decodedFrameBuffer := queue ++ map mkSensorData (frames buf) |}).
Proof.
  unfold carve, frames, no_garbage. rewrite findIndexesOfMagicWord_positions.
  pose proof (marker_positions_sorted buf) as Hsorted.
  pose proof (marker_positions_In buf) as Hin.
  set (idx := marker_positions buf) in *.
  intros [Hlo Hhi] Hhd Hfuel.
  replace (length idx <? 2) with false by (symmetry; apply Nat.ltb_ge; lia).
  rewrite Hhd. cbn [Nat.eqb bind].
  assert (Hne : idx <> []) by (destruct idx; [simpl in Hlo; lia | discriminate]).
  assert (Hbound : forall i, In i idx -> i + 8 <= length buf).
  { intros i Hi. apply Hin in Hi. exact (marker_at_bound Hi). }
  unfold splitIntoSublistsByIndexes.
  destruct idx as [|a rest] eqn:E; [congruence|]. rewrite <- E in *.
  rewrite split_loop_defined.
  2:{ intros k Hk. split; [split|]; [apply sorted_nth_lt; [assumption|lia] | | lia].
      assert (In (nth (S k) idx 0) idx) by (apply nth_In; lia).
      specialize (Hbound _ H). lia. }
  cbn [app bind]. rewrite consecutive_seq, map_map. cbn [fst snd].
  set (sublists := map _ (seq 0 (length idx - 1))).
  assert (Hlen : length sublists = length idx - 1)
    by (unfold sublists; now rewrite length_map, length_seq).
  change 0%Z with (Z.of_nat 0).
  rewrite push_loop_returns by lia. cbn [bind skipn].
  unfold erase.
  pose proof (Hbound _ (last_In Hne)) as Hlast.
  replace (0 <=? last idx 0) with true by (symmetry; apply Nat.leb_le; lia).
  replace (last idx 0 <=? length buf) with true
    by (symmetry; apply Nat.leb_le; lia).
  cbn [andb bind firstn app]. rewrite Hlen.
  unfold sublists. rewrite !map_map. reflexivity.
Qed.

(** With one to eight bytes before the first marker the indexes are applied
    to the buffer after it was shifted by that many bytes: the frames are cut
    out of the shifted buffer, and the bytes kept are those from the last
    marker on only because what is kept by mistake and what is removed by
    mistake are the same marker bytes. *)
Lemma carve_short_garbage (fuel : nat) (buf : list byte) (queue : list SensorData) :
  let idx := marker_positions buf in
  let g := hd 0 idx in
  2 <= length idx <= 256 ->
  0 < g <= 8 ->
  length idx <= fuel ->
  carve mkSensorData fuel buf queue =
  Ret (Z.of_nat (length idx - 1),
       {| dataBuffer := skipn (last idx 0) buf;
          decodedFrameBuffer :=
            queue ++ map (fun se => mkSensorData
                                      (span (skipn g buf) (fst se) (snd se - 1)))
                         (consecutive idx) |}).
Proof.
  unfold carve. rewrite findIndexesOfMagicWord_positions.
  pose proof (marker_positions_sorted buf) as Hsorted.
  pose proof (marker_positions_In buf) as Hin.
  set (idx := marker_positions buf) in *. cbv zeta.
  set (g := hd 0 idx).
  intros [Hlo Hhi] [Hg0 Hg8] Hfuel.
  replace (length idx <? 2) with false by (symmetry; apply Nat.ltb_ge; lia).
  replace (g =? 0) with false by (symmetry; apply Nat.eqb_neq; lia).
  assert (Hne : idx <> []) by (destruct idx; [simpl in Hlo; lia | discriminate]).
  assert (Hbound : forall i, In i idx -> i + 8 <= length buf).
  { intros i Hi. apply Hin in Hi. exact (marker_at_bound Hi). }
  assert (Hgin : In g idx) by (subst g; destruct idx; [congruence | now left]).
  pose proof (Hbound _ Hgin) as Hgb.
  pose proof (Hbound _ (last_In Hne)) as Hlast.
  pose proof (@sorted_last_max _ _ Hsorted Hgin) as Hgl.
  unfold erase at 1.
  replace (0 <=? g) with true by (symmetry; apply Nat.leb_le; lia).
  replace (g <=? length buf) with true by (symmetry; apply Nat.leb_le; lia).
  cbn [andb bind firstn app].
  unfold splitIntoSublistsByIndexes.
  destruct idx as [|a rest] eqn:E; [congruence|]. rewrite <- E in *.
  rewrite split_loop_defined.
  2:{ intros k Hk. split; [split|]; [apply sorted_nth_lt; [assumption|lia] | | lia].
      assert (In (nth (S k) idx 0) idx) by (apply nth_In; lia).
      specialize (Hbound _ H). rewrite length_skipn. lia. }
  cbn [app bind]. rewrite consecutive_seq, map_map. cbn [fst snd].
  set (sublists := map _ (seq 0 (length idx - 1))).
  assert (Hlen : length sublists = length idx - 1)
    by (unfold sublists; now rewrite length_map, length_seq).
  change 0%Z with (Z.of_nat 0).
  rewrite push_loop_returns by lia. cbn [bind skipn].
  unfold erase. rewrite length_skipn.
  replace (g <=? last idx 0) with true by (symmetry; apply Nat.leb_le; lia).
  replace (last idx 0 <=? length buf - g) with true
    by (symmetry; apply Nat.leb_le; lia).
  cbn [andb bind]. rewrite Hlen.
  unfold sublists. rewrite !map_map.
  f_equal. f_equal. f_equal.
  (* the buffer *)
  rewrite skipn_skipn.
  rewrite <- (firstn_skipn g (skipn (last idx 0) buf)).
  rewrite skipn_skipn, (Nat.add_comm g). f_equal.
  assert (Hm : forall i, In i idx -> firstn g (skipn i buf) = firstn g pattern).
  { intros i Hi. apply Hin in Hi. unfold marker_at in Hi. rewrite <- Hi.
    rewrite firstn_firstn. f_equal. change (length pattern) with 8. lia. }
  rewrite (Hm g Hgin), (Hm _ (last_In Hne)). reflexivity.
Qed.

(** More than 256 markers in one buffer: the 8-bit counter of the push loop
    never reaches the number of sublists. *)
Lemma carve_overflow (fuel : nat) (buf : list byte) (queue : list SensorData) :
  257 <= length (marker_positions buf) ->
  no_garbage buf ->
  carve mkSensorData fuel buf queue = Diverges.
Proof.
  unfold carve, no_garbage. rewrite findIndexesOfMagicWord_positions.
  pose proof (marker_positions_sorted buf) as Hsorted.
  pose proof (marker_positions_In buf) as Hin.
  set (idx := marker_positions buf) in *.
  intros Hmany Hhd.
  replace (length idx <? 2) with false by (symmetry; apply Nat.ltb_ge; lia).
  rewrite Hhd. cbn [Nat.eqb bind].
  unfold splitIntoSublistsByIndexes.
  destruct idx as [|a rest] eqn:E; [simpl in Hmany; lia|]. rewrite <- E in *.
  rewrite split_loop_defined.
  2:{ intros k Hk. split; [split|]; [apply sorted_nth_lt; [assumption|lia] | | lia].
      assert (H : In (nth (S k) idx 0) idx) by (apply nth_In; lia).
      apply Hin, marker_at_bound in H. lia. }
  cbn [app bind]. rewrite push_loop_wraps; [reflexivity| |lia].
  rewrite length_map, length_seq. lia.
Qed.

End Carving.

(** ** Markers of a growing stream *)

Lemma marker_at_app (p c : list byte) i :
  i + length pattern <= length p ->
  (marker_at (p ++ c) i <-> marker_at p i).
Proof.
  intros Hfit. unfold marker_at.
  rewrite skipn_app, firstn_app, length_skipn.
  replace (length pattern - (length p - i)) with 0 by lia.
  cbn [firstn]. rewrite app_nil_r. reflexivity.
Qed.

Lemma marker_at_skipn (x : list byte) b j :
  marker_at (skipn b x) j <-> marker_at x (b + j).
Proof.
  unfold marker_at. rewrite skipn_skipn, (Nat.add_comm j b). reflexivity.
Qed.

Lemma filter_none (f : nat -> bool) (l : list nat) :
  (forall i, In i l -> f i = false) -> filter f l = [].
Proof.
  induction l as [|a l IH]; intros H; [reflexivity|]. cbn [filter].
  rewrite (H a (or_introl eq_refl)). apply IH. intros i Hi. apply H. now right.
Qed.

Lemma filter_all (f : nat -> bool) (l : list nat) :
  (forall i, In i l -> f i = true) -> filter f l = l.
Proof.
  induction l as [|a l IH]; intros H; [reflexivity|]. cbn [filter].
  rewrite (H a (or_introl eq_refl)). f_equal. apply IH.
  intros i Hi. apply H. now right.
Qed.

(** A downward closed test cuts an ascending list in two. *)
Lemma sorted_filter_split (f : nat -> bool) (l : list nat) :
  (forall i j, i <= j -> f j = true -> f i = true) ->
  StronglySorted lt l ->
  l = filter f l ++ filter (fun i => negb (f i)) l.
Proof.
  intros Hdown. induction 1 as [|a l Hs IH Ha]; [reflexivity|].
  rewrite Forall_forall in Ha. cbn [filter].
  destruct (f a) eqn:Ea; cbn [negb app]; [now rewrite <- IH|].
  assert (Hl : forall i, In i l -> f i = false).
  { intros i Hi. destruct (f i) eqn:Ei; [|reflexivity].
    specialize (Ha _ Hi). rewrite (Hdown a i) in Ea by (lia || assumption).
    discriminate. }
  rewrite (filter_none _ _ Hl). cbn [app]. f_equal.
  symmetry. apply filter_all. intros i Hi. now rewrite (Hl i Hi).
Qed.

Lemma sorted_filter (f : nat -> bool) (l : list nat) :
  StronglySorted lt l -> StronglySorted lt (filter f l).
Proof.
  induction 1 as [|a l Hs IH Ha]; [constructor|]. cbn [filter].
  destruct (f a); [|exact IH]. constructor; [exact IH|].
  rewrite Forall_forall in *. intros i Hi. apply filter_In in Hi. now apply Ha.
Qed.

(** The markers of a stream that fit into a prefix of it are the markers of
    the prefix; the others come after them. *)
Lemma marker_positions_app (p c : list byte) :
  exists new,
    marker_positions (p ++ c) = marker_positions p ++ new /\
    StronglySorted lt new /\
    forall i, In i new ->
      marker_at (p ++ c) i /\ length p < i + 8 <= length p + length c.
Proof.
  set (fits := fun i => i + 8 <=? length p).
  exists (filter (fun i => negb (fits i)) (marker_positions (p ++ c))).
  pose proof (marker_positions_sorted (p ++ c)) as Hs.
  split; [|split].
  - rewrite (sorted_filter_split fits) at 1; [|intros i j Hij; unfold fits; rewrite !Nat.leb_le; lia|exact Hs].
    f_equal. apply sorted_ext.
    + now apply sorted_filter.
    + apply marker_positions_sorted.
    + intros i. rewrite filter_In, !marker_positions_In. unfold fits.
      rewrite Nat.leb_le. split.
      * intros [Hm Hfit]. now apply marker_at_app in Hm.
      * intros Hm. pose proof (marker_at_bound Hm) as Hb.
        change (length pattern) with 8 in Hb.
        split; [apply marker_at_app; assumption | lia].
  - now apply sorted_filter.
  - intros i Hi. apply filter_In in Hi. destruct Hi as [Hm Hf].
    apply marker_positions_In in Hm. unfold fits in Hf.
    apply negb_true_iff, Nat.leb_gt in Hf.
    pose proof (marker_at_bound Hm) as Hb.
    change (length pattern) with 8 in Hb. rewrite length_app in Hb.
    split; [exact Hm | lia].
Qed.

Lemma no_garbage_prefix (p c : list byte) :
  no_garbage (p ++ c) -> no_garbage p.
Proof.
  unfold no_garbage.
  destruct (marker_positions_app p c) as (new & -> & _).
  destruct (marker_positions p); [reflexivity | exact (fun H => H)].
Qed.

(** Offsets that are pairwise at least 8 apart are few. *)
Lemma sparse_count (l : list nat) : forall lo hi,
  StronglySorted lt l ->
  (forall i j, In i l -> In j l -> i < j -> i + 8 <= j) ->
  (forall i, In i l -> lo <= i < hi) ->
  8 * length l <= hi - lo + 7.
Proof.
  induction l as [|a l IH]; intros lo hi Hs Hgap Hrange; [simpl; lia|].
  apply StronglySorted_inv in Hs. destruct Hs as [Hs Ha].
  rewrite Forall_forall in Ha.
  pose proof (Hrange a (or_introl eq_refl)) as Hra.
  specialize (IH (a + 8) hi Hs).
  cbn [length]. enough (8 * length l <= hi - (a + 8) + 7) by lia.
  destruct l as [|b l']; [simpl; lia|].
  apply IH.
  - intros i j Hi Hj. apply Hgap; now right.
  - intros i Hi. split.
    + apply (Hgap a i); [now left | now right | now apply Ha].
    + apply Hrange. now right.
Qed.

(** The markers of what is kept from the last marker [b] of the prefix on:
    that marker, now at offset 0, and the new ones. *)
Lemma marker_positions_from_last (p c : list byte) (new : list nat) :
  marker_positions p <> [] ->
  marker_positions (p ++ c) = marker_positions p ++ new ->
  StronglySorted lt new ->
  (forall i, In i new -> length p < i + 8) ->
  let b := last (marker_positions p) 0 in
  marker_positions (skipn b (p ++ c)) = map (fun i => i - b) (b :: new) /\
  forall i, In i new -> b < i.
Proof.
  intros Hne Happ Hsn Hnew b.
  assert (Hb : marker_at p b) by (apply marker_positions_In, last_In, Hne).
  pose proof (marker_at_bound Hb) as Hbfit. change (length pattern) with 8 in Hbfit.
  assert (Hgt : forall i, In i new -> b < i).
  { intros i Hi. specialize (Hnew i Hi). lia. }
  split; [|exact Hgt].
  apply sorted_ext.
  - apply marker_positions_sorted.
  - cbn [map]. rewrite Nat.sub_diag. constructor.
    + clear Happ Hnew. induction Hsn as [|a l Hs IH Ha]; [constructor|].
      cbn [map]. constructor.
      * apply IH. intros i Hi. apply Hgt. now right.
      * rewrite Forall_forall in *. intros j Hj. apply in_map_iff in Hj.
        destruct Hj as (i & <- & Hi). specialize (Ha i Hi).
        pose proof (Hgt a (or_introl eq_refl)). lia.
    + rewrite Forall_forall. intros j Hj. apply in_map_iff in Hj.
      destruct Hj as (i & <- & Hi). specialize (Hgt i Hi). lia.
  - intros j. rewrite marker_positions_In, marker_at_skipn.
    rewrite <- marker_positions_In, Happ, in_app_iff.
    cbn [map In]. rewrite Nat.sub_diag, in_map_iff. split.
    + intros [Hp|Hn].
      * left. apply (@sorted_last_max _ _ (marker_positions_sorted p)) in Hp.
        fold b in Hp. lia.
      * right. exists (b + j). split; [lia | exact Hn].
    + intros [<-|(i & <- & Hi)].
      * left. rewrite Nat.add_0_r. apply last_In, Hne.
      * right. specialize (Hgt i Hi).
        replace (b + (i - b)) with i by lia. exact Hi.
Qed.

Lemma span_app (p c : list byte) s e :
  e <= length p -> span (p ++ c) s e = span p s e.
Proof.
  intros He. unfold span. rewrite skipn_app, firstn_app, length_skipn.
  replace (e - s - (length p - s)) with 0 by lia.
  cbn [firstn]. now rewrite app_nil_r.
Qed.

Lemma span_skipn (x : list byte) b s e :
  b <= s -> b <= e -> span (skipn b x) (s - b) (e - b - 1) = span x s (e - 1).
Proof.
  intros Hs He. unfold span. rewrite skipn_skipn.
  replace (s - b + b) with s by lia.
  replace (e - b - 1 - (s - b)) with (e - 1 - s) by lia. reflexivity.
Qed.

(** The frames between markers of the prefix do not change when the stream
    grows. *)
Lemma frames_prefix (p c : list byte) :
  map (fun se => span (p ++ c) (fst se) (snd se - 1))
      (consecutive (marker_positions p)) = frames p.
Proof.
  unfold frames. apply map_ext_in. intros [s e] Hse. cbn [fst snd].
  apply consecutive_In in Hse. destruct Hse as [_ He].
  apply marker_positions_In, marker_at_bound in He.
  apply span_app. lia.
Qed.

Lemma last_app_cons (l1 l2 : list nat) a : last (l1 ++ a :: l2) 0 = last (a :: l2) 0.
Proof.
  induction l1 as [|x l1 IH]; [reflexivity|].
  rewrite <- IH. cbn [app]. destruct (l1 ++ a :: l2) eqn:E; [|reflexivity].
  destruct l1; discriminate.
Qed.

Lemma last_map_sub (l : list nat) a b :
  (forall i, In i (a :: l) -> b <= i) ->
  last (map (fun i => i - b) (a :: l)) 0 + b = last (a :: l) 0.
Proof.
  revert a. induction l as [|x l IH]; intros a H.
  - cbn. specialize (H a (or_introl eq_refl)). lia.
  - change (last (a :: x :: l) 0) with (last (x :: l) 0).
    change (last (map (fun i => i - b) (a :: x :: l)) 0)
      with (last (map (fun i => i - b) (x :: l)) 0).
    apply IH. intros i Hi. apply H. now right.
Qed.

(** What a chunk [c] of at most 1024 bytes adds to a stream [p] of which the
    bytes from the last marker on are still buffered. *)
Lemma extend_stream (p c : list byte) :
  no_garbage (p ++ c) -> length c <= 1024 ->
  let b := last (marker_positions p) 0 in
  let x := p ++ c in
  let idx := marker_positions (skipn b x) in
  skipn b p ++ c = skipn b x /\
  length idx <= 256 /\
  (length idx < 2 ->
     skipn (last (marker_positions x) 0) x = skipn b x /\
     frames x = frames p /\
     length (marker_positions x) - 1 = length (marker_positions p) - 1) /\
  (2 <= length idx ->
     no_garbage (skipn b x) /\
     skipn (last idx 0) (skipn b x) = skipn (last (marker_positions x) 0) x /\
     frames x = frames p ++ frames (skipn b x) /\
     length (marker_positions x) - 1 =
       (length (marker_positions p) - 1) + (length idx - 1)).
Proof.
  intros Hng Hc.
  destruct (marker_positions_app p c) as (new & Happ & Hsn & Hnew).
  assert (Hfew : length new <= 128).
  { enough (8 * length new <= (length p + length c - 7) - (length p - 7) + 7) by lia.
    apply sparse_count; [exact Hsn| |].
    - intros i j Hi Hj. apply (@markers_do_not_overlap (p ++ c)); now apply Hnew.
    - intros i Hi. destruct (Hnew i Hi) as [_ H]. lia. }
  destruct (list_eq_dec Nat.eq_dec (marker_positions p) []) as [EP|HP].
  - (* no marker so far *)
    rewrite EP in *. cbn [app] in Happ. cbn [last skipn]. cbv zeta.
    rewrite Happ.
    split; [reflexivity|]. split; [lia|]. split.
    + intros Hshort. unfold frames. rewrite Happ, EP.
      unfold no_garbage in Hng. rewrite Happ in Hng.
      destruct new as [|n [|n' new']]; cbn in *; try lia; subst;
        repeat split; reflexivity.
    + intros Hlong. split; [exact Hng|]. split; [reflexivity|].
      split; [unfold frames at 2; rewrite EP; reflexivity | cbn; lia].
  - (* the last marker so far is at [b] *)
    intros b x idx.
    destruct (@marker_positions_from_last p c new HP Happ Hsn
                (fun i Hi => proj1 (proj2 (Hnew i Hi)))) as [Hidx Hgt].
    fold b x in Hidx, Hgt, Happ. fold idx in Hidx.
    assert (HlenP : 1 <= length (marker_positions p))
      by (destruct (marker_positions p); [congruence | simpl; lia]).
    assert (Hb : b + 8 <= length p).
    { apply (@marker_at_bound p b), marker_positions_In, last_In, HP. }
    assert (Hlen : length idx = S (length new))
      by (rewrite Hidx; cbn [map length]; now rewrite length_map).
    split.
    { unfold x. rewrite skipn_app. replace (b - length p) with 0 by lia.
      reflexivity. }
    split; [lia|]. split.
    + intros Hshort. destruct new as [|n new']; [|simpl in Hlen; lia].
      rewrite app_nil_r in Happ. rewrite Happ. fold b.
      split; [reflexivity|]. split; [|reflexivity].
      unfold frames at 1. rewrite Happ. apply frames_prefix.
    + intros Hlong. destruct new as [|n new']; [simpl in Hlen; lia|].
      split; [unfold no_garbage; fold idx; rewrite Hidx; cbn; lia|].
      split; [|split].
      * rewrite skipn_skipn. f_equal. rewrite Happ, last_app_cons, Hidx.
        rewrite last_map_sub.
        -- reflexivity.
        -- intros i [<-|Hi]; [lia|]. specialize (Hgt i Hi). lia.
      * unfold frames at 1. rewrite Happ, consecutive_app, map_app by exact HP.
        fold b. unfold x at 1. rewrite frames_prefix. f_equal.
        unfold frames. fold idx. rewrite Hidx, consecutive_map, map_map.
        apply map_ext_in. intros [s e] Hse. cbn [fst snd].
        apply consecutive_In in Hse. destruct Hse as [Hs He].
        symmetry. apply span_skipn.
        -- destruct Hs as [<-|Hs]; [lia|]. specialize (Hgt s Hs). lia.
        -- destruct He as [<-|He]; [lia|]. specialize (Hgt e He). lia.
      * rewrite Happ, length_app, Hlen. lia.
Qed.

(** ** Polling a stream that starts with a marker *)

Lemma chunk_length (chunks : list (list byte)) c :
  In c chunks -> length c <= length (concat chunks).
Proof.
  induction chunks as [|c0 chunks IH]; [contradiction|].
  cbn [concat]. rewrite length_app. intros [->|H]; [lia|].
  specialize (IH H). lia.
Qed.

Section Fragmentation.

Variable SensorData : Type.
Variable mkSensorData : list byte -> SensorData.
Variable fuel : nat.
Hypothesis enough_fuel : 256 <= fuel.

(** One [poll] takes the reassembler from the stream [p] to the stream
    [p ++ c] and returns the number of frames that [c] completed. *)
Lemma poll_step (queue0 : list SensorData) (p c : list byte) :
  no_garbage (p ++ c) -> length c <= 1024 ->
  poll mkSensorData fuel (fed mkSensorData queue0 p) (deliver idle_port c) =
  Ret ((frame_count (p ++ c) - frame_count p)%Z,
       fed mkSensorData queue0 (p ++ c), idle_port).
Proof.
  intros Hng Hc. destruct c as [|x0 c'] eqn:Ec.
  - rewrite app_nil_r. unfold poll, deliver, ioctl_FIONREAD. cbn.
    rewrite Z.sub_diag. reflexivity.
  - rewrite <- Ec in *.
    rewrite poll_reads; [|reflexivity|reflexivity|rewrite Ec; discriminate].
    assert (Hport : after_read (deliver idle_port c) = idle_port).
    { unfold after_read, deliver, idle_port. cbn [rx ioctl_fails read_fails app].
      now rewrite skipn_all2 by lia. }
    rewrite Hport. cbn [deliver idle_port rx app].
    rewrite firstn_all2 by lia. cbn [fed dataBuffer decodedFrameBuffer].
    destruct (extend_stream p c Hng Hc) as (Hbuf & Hmax & Hshort & Hlong).
    rewrite Hbuf. unfold frame_count, fed.
    set (b := last (marker_positions p) 0) in *.
    set (idx := marker_positions (skipn b (p ++ c))) in *.
    destruct (Nat.lt_ge_cases (length idx) 2) as [Hlt|Hge].
    + destruct (Hshort Hlt) as (-> & -> & ->).
      unfold carve. rewrite findIndexesOfMagicWord_positions. fold idx.
      apply Nat.ltb_lt in Hlt. rewrite Hlt. cbn [bind fst snd].
      rewrite Z.sub_diag. reflexivity.
    + destruct (Hlong Hge) as (Hal & <- & -> & ->).
      rewrite carve_aligned by (fold idx; lia || assumption).
      cbn [bind fst snd]. fold idx. rewrite map_app, app_assoc.
      f_equal. f_equal. f_equal. lia.
Qed.

(** Whatever the chunking, the polls end in the state and with the total that
    the whole stream determines. *)
Lemma poll_chunks_stream (queue0 : list SensorData) :
  forall (chunks : list (list byte)) (p : list byte),
  no_garbage (p ++ concat chunks) ->
  (forall c, In c chunks -> length c <= 1024) ->
  poll_chunks mkSensorData fuel (fed mkSensorData queue0 p) idle_port chunks =
  Ret ((frame_count (p ++ concat chunks) - frame_count p)%Z,
       fed mkSensorData queue0 (p ++ concat chunks), idle_port).
Proof.
  induction chunks as [|c chunks IH]; intros p Hng Hlen; cbn [poll_chunks concat].
  - rewrite app_nil_r, Z.sub_diag. reflexivity.
  - cbn [concat] in Hng. rewrite app_assoc in Hng |- *.
    rewrite poll_step;
      [|exact (no_garbage_prefix _ _ Hng)|apply Hlen; now left].
    cbn [bind]. rewrite IH; [|exact Hng|intros c' Hc'; apply Hlen; now right].
    cbn [bind]. f_equal. f_equal. f_equal. lia.
Qed.

End Fragmentation.

(** ** Where the carving departs from the frame boundaries *)

(** C2. The buffer MARKER + PAYLOAD_A + MARKER has the boundary indexes 0 and
    13; the sublist emitted for this pair is the span [[0, 12)], which lacks
    the last payload byte, not the span [[0, 13)]. *)
Theorem splitIntoSublistsByIndexes_drops_last_byte :
  let buf := MARKER ++ PAYLOAD_A ++ MARKER in
  findIndexesOfMagicWord buf = [0; 13] /\
  splitIntoSublistsByIndexes buf [0; 13] = Ret [span buf 0 12] /\
  span buf 0 12 = MARKER ++ [x11; x12; x13; x14] /\
  span buf 0 13 = MARKER ++ PAYLOAD_A /\
  splitIntoSublistsByIndexes buf [0; 13] <> Ret [span buf 0 13].
Proof.
  cbv zeta. repeat split; try reflexivity.
  vm_compute. discriminate.
Qed.

(** C3. With nine bytes of garbage before the first marker, a [poll] that
    carves one frame leaves a buffer that is not the trailing partial frame:
    the indexes 9 and 22 were computed before the garbage was erased and are
    applied to the shifted buffer, so one byte of PAYLOAD_A survives and the
    first byte of PAYLOAD_B is lost. *)
Theorem poll_stale_indexes_corrupt_buffer (fuel : nat) :
  let input := GARBAGE9 ++ MARKER ++ PAYLOAD_A ++ MARKER ++ PAYLOAD_B in
  findIndexesOfMagicWord input = [9; 22] /\
  exists self' port',
    poll raw_frame (S (S fuel)) fresh (deliver idle_port input) =
      Ret (1%Z, self', port') /\
    dataBuffer self' = MARKER ++ [x11] ++ [x22; x23; x24; x25] /\
    skipn 22 input = MARKER ++ PAYLOAD_B /\
    dataBuffer self' <> skipn 22 input.
Proof.
  cbv zeta. split; [reflexivity|].
  eexists. eexists. split; [vm_compute; reflexivity|].
  repeat split. vm_compute. discriminate.
Qed.

(** C4. GARBAGE + MARKER + PAYLOAD_A + MARKER + PAYLOAD_B in one [poll]
    returns 1 and leaves MARKER + PAYLOAD_B in the buffer, but the frame it
    enqueues is the last five marker bytes, PAYLOAD_A and the first two bytes
    of the next marker. A second [poll] with nothing new returns 0. A third
    [poll] that receives MARKER returns 1 and enqueues MARKER and the first
    four bytes of PAYLOAD_B. *)
Theorem scenario_frames_are_shifted (fuel : nat) :
  let input := GARBAGE ++ MARKER ++ PAYLOAD_A ++ MARKER ++ PAYLOAD_B in
  exists s1 p1 s3 p3,
    poll raw_frame (S (S fuel)) fresh (deliver idle_port input) = Ret (1%Z, s1, p1) /\
    dataBuffer s1 = MARKER ++ PAYLOAD_B /\
    decodedFrameBuffer s1 = [skipn 3 MARKER ++ PAYLOAD_A ++ firstn 2 MARKER] /\
    decodedFrameBuffer s1 <> [MARKER ++ PAYLOAD_A] /\
    poll raw_frame (S (S fuel)) s1 (deliver p1 []) = Ret (0%Z, s1, p1) /\
    poll raw_frame (S (S fuel)) s1 (deliver p1 MARKER) = Ret (1%Z, s3, p3) /\
    decodedFrameBuffer s3 =
      decodedFrameBuffer s1 ++ [MARKER ++ firstn 4 PAYLOAD_B] /\
    decodedFrameBuffer s3 <> decodedFrameBuffer s1 ++ [MARKER ++ PAYLOAD_B] /\
    dataBuffer s3 = MARKER.
Proof.
  cbv zeta. do 4 eexists.
  split; [vm_compute; reflexivity|].
  split; [reflexivity|]. split; [reflexivity|].
  split; [vm_compute; discriminate|].
  split; [vm_compute; reflexivity|].
  split; [vm_compute; reflexivity|].
  split; [reflexivity|].
  split; [vm_compute; discriminate|reflexivity].
Qed.

(** The same 37 bytes, GARBAGE + MARKER + PAYLOAD_A + MARKER + PAYLOAD_B +
    MARKER, give two frames whether they arrive in one chunk or in two, but
    the bytes of the second frame differ: in one chunk it is carved with the
    shifted indexes, in two chunks from an aligned buffer. *)
Lemma garbage_breaks_fragmentation (fuel : nat) :
  let chunk1 := GARBAGE ++ MARKER ++ PAYLOAD_A ++ MARKER in
  let chunk2 := PAYLOAD_B ++ MARKER in
  exists whole split,
    poll_chunks raw_frame (S (S (S fuel))) fresh idle_port [chunk1 ++ chunk2] =
      Ret (2%Z, fst whole, snd whole) /\
    poll_chunks raw_frame (S (S (S fuel))) fresh idle_port [chunk1; chunk2] =
      Ret (2%Z, fst split, snd split) /\
    decodedFrameBuffer (fst whole) =
      [skipn 3 MARKER ++ PAYLOAD_A ++ firstn 2 MARKER;
       skipn 3 MARKER ++ PAYLOAD_B ++ firstn 2 MARKER] /\
    decodedFrameBuffer (fst split) =
      [skipn 3 MARKER ++ PAYLOAD_A ++ firstn 2 MARKER;
       MARKER ++ firstn 4 PAYLOAD_B] /\
    concat (decodedFrameBuffer (fst whole)) <>
    concat (decodedFrameBuffer (fst split)).
Proof.
  cbv zeta. eexists (_, _). eexists (_, _). cbn [fst snd].
  split; [vm_compute; reflexivity|].
  split; [vm_compute; reflexivity|].
  split; [reflexivity|]. split; [reflexivity|].
  vm_compute. discriminate.
Qed.

(** ** Fragmentation *)

(** C1 as stated fails. One [poll] reads at most 1024 bytes: with all 1032
    bytes of LONG_INPUT waiting, a single [poll] sees one marker, returns 0
    and leaves the last 8 bytes in the receive queue, while two polls that
    receive 516 bytes each produce one frame. *)
Lemma fragmentation_counterexample :
  exists s1 p1 s2 p2,
    length LONG_INPUT = 1032 /\
    poll_chunks raw_frame 256 fresh idle_port [LONG_INPUT] = Ret (0%Z, s1, p1) /\
    decodedFrameBuffer s1 = [] /\
    rx p1 = skipn 1024 LONG_INPUT /\
    poll_chunks raw_frame 256 fresh idle_port
      [firstn 516 LONG_INPUT; skipn 516 LONG_INPUT] = Ret (1%Z, s2, p2) /\
    decodedFrameBuffer s2 = [firstn 1023 LONG_INPUT].
Proof.
  do 4 eexists.
  split; [reflexivity|].
  split; [vm_compute; reflexivity|].
  split; [reflexivity|]. split; [reflexivity|].
  split; [vm_compute; reflexivity|]. reflexivity.
Qed.

Section FragmentationInvariance.

Variable SensorData : Type.
Variable mkSensorData : list byte -> SensorData.

(** C1, amended. Take a reassembler whose buffer holds at most one marker, an
    idle port, and a byte sequence of at most 1024 bytes such that no byte of
    the buffer followed by the sequence comes before the first marker.
    However the sequence is split into chunks that arrive before successive
    polls, the polls end with the same total number of frames, the same
    decoded-frame queue and the same buffer as one poll that receives the
    whole sequence; all three are determined by the stream. *)
Theorem poll_chunks_fragmentation_invariant
    (fuel : nat) (self : IWR6843 SensorData) (chunks : list (list byte)) :
  256 <= fuel ->
  length (marker_positions (dataBuffer self)) <= 1 ->
  no_garbage (dataBuffer self ++ concat chunks) ->
  length (concat chunks) <= 1024 ->
  let stream := dataBuffer self ++ concat chunks in
  poll_chunks mkSensorData fuel self idle_port chunks =
    poll_chunks mkSensorData fuel self idle_port [concat chunks] /\
  poll_chunks mkSensorData fuel self idle_port chunks =
    Ret (frame_count stream,
         {| dataBuffer := skipn (last (marker_positions stream) 0) stream;
            decodedFrameBuffer :=
              decodedFrameBuffer self ++ map mkSensorData (frames stream) |},
         idle_port).
Proof.
  intros Hfuel Hone Hng Hlen stream.
  assert (Hself : self = fed mkSensorData (decodedFrameBuffer self) (dataBuffer self)).
  { pose proof (no_garbage_prefix _ _ Hng) as Hng0.
    unfold fed, frames, no_garbage in *.
    destruct self as [buf queue]. cbn [dataBuffer decodedFrameBuffer] in *.
    destruct (marker_positions buf) as [|a [|a' l]]; cbn in *; try lia; subst;
      now rewrite app_nil_r. }
  assert (Hzero : frame_count (dataBuffer self) = 0%Z).
  { unfold frame_count. lia. }
  assert (Hall : forall chunks',
    concat chunks' = concat chunks ->
    poll_chunks mkSensorData fuel self idle_port chunks' =
    Ret (frame_count stream,
         fed mkSensorData (decodedFrameBuffer self) stream, idle_port)).
  { intros chunks' Hsame. rewrite Hself at 1.
    rewrite (@poll_chunks_stream _ mkSensorData fuel Hfuel).
    - rewrite Hsame, Hzero, Z.sub_0_r. reflexivity.
    - now rewrite Hsame.
    - intros c Hc. apply chunk_length in Hc. rewrite Hsame in Hc. lia. }
  split.
  - rewrite (Hall chunks eq_refl). symmetry. apply Hall.
    cbn [concat]. apply app_nil_r.
  - apply (Hall chunks eq_refl).
Qed.

End FragmentationInvariance.

(** ** The configuration upload *)


(** The response loop is left through [break] only with an acknowledgement
    in [response]. *)
Lemma response_loop_break : forall events queue response r port',
  response_loop events queue response = Ret (Some r, port') ->
  acknowledged r = true.
Proof.
  intros events.
  induction events as [|ev events IH]; intros queue response r port';
    cbn [response_loop]; destruct (acknowledged response) eqn:E;
    try (intros [= <- _]; exact E); try discriminate.
  destruct ev as [bytes| |bytes]; try discriminate;
    destruct (Z.of_nat (length (queue ++ bytes)) =? 0)%Z;
    try discriminate; apply IH.
Qed.

Lemma upload_lines_trace : forall lines port trace,
  upload_lines lines port trace =
  (trace ++ fst (upload_lines lines port []), snd (upload_lines lines port [])).
Proof.
  induction lines as [|line lines IH]; intros port trace; cbn [upload_lines].
  - cbn [fst snd]. now rewrite app_nil_r.
  - destruct (skipped_line line); [apply IH|].
    destruct (response_loop (script port) (pending port) [])
      as [[[response|] port']| |]; cbn [fst snd app]; try reflexivity.
    rewrite (IH port' ((trace ++ [Sent line]) ++ [Acked response])).
    rewrite (IH port' [Sent line; Acked response]). cbn [fst snd].
    rewrite <- !app_assoc. reflexivity.
Qed.

Lemma upload_lines_handshake : forall lines port,
  let commands := filter (fun line => negb (skipped_line line)) lines in
  let trace := fst (upload_lines lines port []) in
  let result := snd (upload_lines lines port []) in
  handshake trace = true /\
  (exists rest, commands = transmitted trace ++ rest) /\
  (forall port', result = Ret (1%Z, port') ->
     transmitted trace = commands /\ handshake_complete trace = true).
Proof.
  induction lines as [|line lines IH]; intros port; cbn zeta.
  - cbn. repeat split. now exists [].
  - cbn [upload_lines filter].
    destruct (skipped_line line) eqn:Esk; cbn [negb]; [apply IH|].
    destruct (response_loop (script port) (pending port) [])
      as [[[response|] port']| |] eqn:Er; cbn [fst snd app].
    + rewrite upload_lines_trace. cbn [fst snd app handshake transmitted
        handshake_complete].
      rewrite (response_loop_break _ _ _ Er). cbn [andb].
      destruct (IH port') as (Hh & [rest Hrest] & Hdone).
      split; [exact Hh|]. split.
      * exists rest. cbn [app]. now rewrite Hrest at 1.
      * intros port'' Hres. destruct (Hdone port'' Hres) as [Ht Hc].
        split; [now rewrite Ht | exact Hc].
    + repeat split; try discriminate. eexists. reflexivity.
    + repeat split; try discriminate. eexists. reflexivity.
    + repeat split; try discriminate. eexists. reflexivity.
Qed.





(** The upload scenario of the specification: a comment line, a blank line
    and one command; the device answers "Done" in two pieces. *)
Example upload_scenario :
  sendConfigFile (Some config_script) answering_device =
  ([Sent (list_ascii_of_string "sensorStart");
    Acked (list_ascii_of_string "Done")],
   Ret (1%Z, {| pending := []; script := [] |})).
Proof. reflexivity. Qed.

(** ** Instances *)

(** An idle [poll] on a reassembler that holds a partial frame and three
    decoded frames. *)
Lemma poll_idle_noop_witness :
  fst (ioctl_FIONREAD idle_port) <> (-1)%Z /\
  snd (ioctl_FIONREAD idle_port) = 0%Z /\
  poll raw_frame 0 busy idle_port = Ret (0%Z, busy, idle_port).
Proof.
  assert (H1 : fst (ioctl_FIONREAD idle_port) <> (-1)%Z) by (simpl; lia).
  assert (H2 : snd (ioctl_FIONREAD idle_port) = 0%Z) by reflexivity.
  split; [exact H1|]. split; [exact H2|].
  exact (poll_idle_noop raw_frame 0 busy idle_port H1 H2).
Defined.

(** A failing query with five bytes waiting: they stay in the receive queue. *)
Lemma poll_ioctl_failure_witness :
  fst (ioctl_FIONREAD broken_port) = (-1)%Z /\
  poll raw_frame 0 busy broken_port = Ret ((-1)%Z, busy, broken_port).
Proof.
  assert (H : fst (ioctl_FIONREAD broken_port) = (-1)%Z) by reflexivity.
  split; [exact H|].
  exact (poll_ioctl_failure raw_frame 0 busy broken_port H).
Defined.

(** Two more payload bytes reach a buffer that holds one marker. *)
Lemma poll_partial_frame_retained_witness :
  length (findIndexesOfMagicWord (dataBuffer busy ++ firstn 1024 (rx waiting_port))) < 2 /\
  poll raw_frame 0 busy waiting_port =
  Ret (0%Z,
       {| dataBuffer := MARKER ++ PAYLOAD_B ++ [x31; x32];
          decodedFrameBuffer := decodedFrameBuffer busy |},
       idle_port).
Proof.
  assert (H : length (findIndexesOfMagicWord
                        (dataBuffer busy ++ firstn 1024 (rx waiting_port))) < 2)
    by (vm_compute; lia).
  split; [exact H|].
  exact (poll_partial_frame_retained raw_frame 0 busy waiting_port
           eq_refl eq_refl H).
Defined.

(** Taking two of three queued frames. *)
Lemma getDecodedFramesFromTop_fifo_witness :
  exists self',
    getDecodedFramesFromTop busy 2 true =
      Ret ([MARKER ++ PAYLOAD_A; MARKER], self') /\
    getDecodedFrameBuffer self' = [PAYLOAD_B] /\
    dataBuffer self' = dataBuffer busy /\
    decodedFrameBuffer busy = [MARKER ++ PAYLOAD_A; MARKER] ++ getDecodedFrameBuffer self' /\
    getDecodedFramesFromTop busy 2 false = Ret ([MARKER ++ PAYLOAD_A; MARKER], busy).
Proof.
  exact (@getDecodedFramesFromTop_fifo (list byte) busy 2 ltac:(simpl; lia)).
Defined.

(** A stream in which the second marker is cut by a chunk boundary. *)
Lemma poll_chunks_fragmentation_invariant_witness :
  let chunks :=
    [MARKER ++ PAYLOAD_A; firstn 3 MARKER; skipn 3 MARKER ++ PAYLOAD_B ++ MARKER] in
  let stream := MARKER ++ PAYLOAD_A ++ MARKER ++ PAYLOAD_B ++ MARKER in
  poll_chunks raw_frame 256 fresh idle_port chunks =
    poll_chunks raw_frame 256 fresh idle_port [concat chunks] /\
  poll_chunks raw_frame 256 fresh idle_port chunks =
    Ret (2%Z,
         {| dataBuffer := MARKER;
            decodedFrameBuffer :=
              [MARKER ++ firstn 4 PAYLOAD_A; MARKER ++ firstn 4 PAYLOAD_B] |},
         idle_port).
Proof.
  exact (@poll_chunks_fragmentation_invariant (list byte) raw_frame 256 fresh
           [MARKER ++ PAYLOAD_A; firstn 3 MARKER;
            skipn 3 MARKER ++ PAYLOAD_B ++ MARKER]
           ltac:(lia) ltac:(vm_compute; lia) ltac:(vm_compute; reflexivity)
           ltac:(vm_compute; lia)).
Defined.

(** * Further properties of the driver *)

(** ** The locator on a growing buffer *)

(** X1. Appending bytes to a buffer never changes the indexes found before:
    the result on the longer buffer starts with the result on the shorter
    one, and each further index belongs to a marker that ends inside the
    appended bytes. *)
Theorem findIndexesOfMagicWord_app (p c : list byte) :
  exists new,
    findIndexesOfMagicWord (p ++ c) = findIndexesOfMagicWord p ++ new /\
    StronglySorted lt new /\
    forall i, In i new -> length p < i + 8 <= length p + length c.
Proof.
  rewrite !findIndexesOfMagicWord_positions.
  destruct (marker_positions_app p c) as (new & Happ & Hs & Hnew).
  exists new. repeat split; try assumption; apply Hnew; assumption.
Qed.

(** X2. Every index that the locator returns leaves room for the whole
    marker inside the buffer, and a buffer of n bytes yields at most n / 8
    indexes. *)
Theorem findIndexesOfMagicWord_bounds (buf : list byte) :
  (forall i, In i (findIndexesOfMagicWord buf) -> i + 8 <= length buf) /\
  8 * length (findIndexesOfMagicWord buf) <= length buf.
Proof.
  rewrite findIndexesOfMagicWord_positions.
  assert (Hfit : forall i, In i (marker_positions buf) -> i + 8 <= length buf).
  { intros i Hi. apply marker_positions_In in Hi. exact (marker_at_bound Hi). }
  split; [exact Hfit|].
  enough (8 * length (marker_positions buf) <= (length buf - 7) - 0 + 7).
  { destruct (marker_positions buf) as [|i l] eqn:E; [simpl; lia|].
    specialize (Hfit i (or_introl eq_refl)). lia. }
  apply sparse_count.
  - apply marker_positions_sorted.
  - intros i j Hi Hj. apply (@markers_do_not_overlap buf);
      now apply marker_positions_In.
  - intros i Hi. specialize (Hfit i Hi). lia.
Qed.

(** ** When the carving is defined *)

Lemma split_loop_ret_pairs buf indexes : forall n i acc res,
  split_loop buf indexes n i acc = Ret res ->
  forall k, k < n ->
    S (i + k) < length indexes /\
    nth (i + k) indexes 0 < nth (S (i + k)) indexes 0 <= length buf.
Proof.
  induction n as [|n IH]; intros i acc res; cbn [split_loop]; [intros _ k Hk; lia|].
  destruct (nth_error indexes i) as [s|] eqn:Es; [|discriminate].
  rewrite Nat.add_1_r.
  destruct (nth_error indexes (S i)) as [e|] eqn:Ee; [|discriminate].
  destruct ((e =? 0) || (length buf <? e)) eqn:Ebad; [discriminate|].
  unfold range.
  destruct ((s <=? e - 1) && (e - 1 <=? length buf)) eqn:Erng; [|discriminate].
  cbn [bind]. intros Hrec [|k] Hk.
  - rewrite Nat.add_0_r.
    apply orb_false_iff in Ebad. destruct Ebad as [E0 Elen].
    apply Nat.eqb_neq in E0. apply Nat.ltb_ge in Elen.
    apply andb_true_iff in Erng. destruct Erng as [Ese _].
    apply Nat.leb_le in Ese.
    assert (Hi : S i < length indexes)
      by (apply nth_error_Some; congruence).
    rewrite (nth_error_nth _ _ 0 Es), (nth_error_nth _ _ 0 Ee). lia.
  - rewrite Nat.add_succ_r.
    apply (IH (S i) _ _ Hrec k). lia.
Qed.

Lemma split_loop_ends buf indexes : forall n i acc,
  split_loop buf indexes n i acc <> Diverges.
Proof.
  induction n as [|n IH]; intros i acc; cbn [split_loop]; [discriminate|].
  destruct (nth_error indexes i) as [s|]; [|discriminate].
  destruct (nth_error indexes (i + 1)) as [e|]; [|discriminate].
  destruct ((e =? 0) || (length buf <? e)); [discriminate|].
  unfold range. destruct ((s <=? e - 1) && (e - 1 <=? length buf));
    [cbn [bind]; apply IH | discriminate].
Qed.

Lemma consecutive_In_nth (l : list nat) s e :
  In (s, e) (consecutive l) <->
  exists k, S k < length l /\ s = nth k l 0 /\ e = nth (S k) l 0.
Proof.
  rewrite consecutive_seq, in_map_iff. split.
  - intros (k & [= <- <-] & Hk). apply in_seq in Hk. exists k.
    repeat split; lia.
  - intros (k & Hk & -> & ->). exists k. split; [reflexivity|].
    apply in_seq. lia.
Qed.

Lemma split_valid (buf : list byte) (indexes : list nat) :
  indexes <> [] ->
  (forall s e, In (s, e) (consecutive indexes) -> s < e <= length buf) ->
  splitIntoSublistsByIndexes buf indexes =
  Ret (map (fun se => span buf (fst se) (snd se - 1)) (consecutive indexes)).
Proof.
  intros Hne Hpairs. unfold splitIntoSublistsByIndexes.
  destruct indexes as [|a l] eqn:E; [congruence|]. rewrite <- E in *.
  rewrite split_loop_defined.
  - cbn [app]. now rewrite consecutive_seq, map_map.
  - intros k Hk. split; [|lia].
    apply Hpairs, consecutive_In_nth. exists k. repeat split; lia.
Qed.

(** Consecutive markers of a buffer: both inside it, a marker length apart. *)
Lemma consecutive_markers (buf : list byte) s e :
  In (s, e) (consecutive (marker_positions buf)) ->
  marker_at buf s /\ s + 8 <= e /\ e + 8 <= length buf.
Proof.
  intros Hse. pose proof (marker_positions_sorted buf) as Hs.
  destruct (@consecutive_In _ _ _ Hse) as [Hins Hine].
  apply consecutive_In_nth in Hse. destruct Hse as (k & Hk & -> & ->).
  pose proof (@sorted_nth_lt _ k Hs Hk) as Hlt.
  apply marker_positions_In in Hins, Hine.
  pose proof (markers_do_not_overlap Hins Hine Hlt) as Hgap.
  pose proof (marker_at_bound Hine) as Hb.
  change (length pattern) with 8 in *. auto.
Qed.

(** X3. [splitIntoSublistsByIndexes] has a defined result exactly when the
    index list is not empty and each index is smaller than its successor,
    which is at most the buffer length; the result then holds, for each pair
    [(s, e)] of consecutive indexes in order, the bytes [[s, e - 1)]. In
    every other case the behaviour is undefined. *)
Theorem splitIntoSublistsByIndexes_defined_iff (buf : list byte) (indexes : list nat) :
  let valid :=
    indexes <> [] /\
    forall s e, In (s, e) (consecutive indexes) -> s < e <= length buf in
  (valid ->
     splitIntoSublistsByIndexes buf indexes =
     Ret (map (fun se => span buf (fst se) (snd se - 1)) (consecutive indexes))) /\
  (~ valid -> splitIntoSublistsByIndexes buf indexes = Undefined).
Proof.
  cbv zeta.
  split; [intros [Hne Hpairs]; now apply split_valid|].
  intros Hbad.
  destruct (splitIntoSublistsByIndexes buf indexes) as [res| |] eqn:Eres;
    [exfalso|reflexivity|exfalso].
  - apply Hbad. unfold splitIntoSublistsByIndexes in Eres.
    destruct indexes as [|a l] eqn:E; [discriminate|]. rewrite <- E in *.
    split; [rewrite E; discriminate|].
    intros s e Hse. apply consecutive_In_nth in Hse.
    destruct Hse as (k & Hk & -> & ->).
    pose proof (@split_loop_ret_pairs buf indexes _ _ _ _ Eres k ltac:(lia)) as H.
    cbn [Nat.add] in H. apply H.
  - unfold splitIntoSublistsByIndexes in Eres.
    destruct indexes as [|a l]; [discriminate|].
    exact (split_loop_ends _ _ _ _ _ Eres).
Qed.

(** X4. On the buffer in which the indexes were located the carving is
    always defined as soon as there is one marker: it yields one sublist less
    than there are indexes, and each sublist has at least 7 bytes and starts
    with the first 7 bytes of the marker. *)
Theorem split_of_located (buf : list byte) :
  findIndexesOfMagicWord buf <> [] ->
  exists sublists,
    splitIntoSublistsByIndexes buf (findIndexesOfMagicWord buf) = Ret sublists /\
    S (length sublists) = length (findIndexesOfMagicWord buf) /\
    Forall (fun f => 7 <= length f /\ firstn 7 f = firstn 7 pattern) sublists.
Proof.
  rewrite findIndexesOfMagicWord_positions. intros Hne.
  eexists. split; [|split].
  - apply split_valid; [exact Hne|].
    intros s e Hse. apply consecutive_markers in Hse. lia.
  - rewrite length_map, consecutive_seq, length_map, length_seq.
    destruct (marker_positions buf); [congruence | simpl; lia].
  - apply Forall_forall. intros f Hf. apply in_map_iff in Hf.
    destruct Hf as ([s e] & <- & Hse). cbn [fst snd].
    apply consecutive_markers in Hse. destruct Hse as (Hm & Hgap & Hfit).
    unfold span. split.
    + rewrite length_firstn, length_skipn. lia.
    + rewrite firstn_firstn. replace (Nat.min 7 (e - 1 - s)) with 7 by lia.
      unfold marker_at in Hm. rewrite <- Hm, firstn_firstn. reflexivity.
Qed.

(** ** What every returning [poll] has done *)

Lemma erase_length (T : Type) (v v' : list T) a b :
  erase v a b = Ret v' -> length v' <= length v.
Proof.
  unfold erase. destruct ((a <=? b) && (b <=? length v)) eqn:E; [|discriminate].
  intros [= <-]. apply andb_true_iff in E. destruct E as [Hab Hb].
  apply Nat.leb_le in Hab, Hb.
  rewrite length_app, length_firstn, length_skipn. lia.
Qed.

Section PollInversion.

Variable SensorData : Type.
Variable mkSensorData : list byte -> SensorData.

Lemma push_loop_ret : forall fuel sublists i queue queue',
  (0 <= i < 256)%Z ->
  push_loop mkSensorData fuel sublists i queue = Ret queue' ->
  length sublists <= 255 /\
  queue' = queue ++ map mkSensorData (skipn (Z.to_nat i) sublists).
Proof.
  intros fuel sublists i queue queue' Hi Hret.
  destruct (Nat.le_gt_cases (length sublists) 255) as [Hle|Hgt].
  2:{ rewrite push_loop_wraps in Hret by lia. discriminate. }
  split; [exact Hle|].
  revert i queue Hi Hret.
  induction fuel as [|fuel IH]; intros i queue Hi; cbn [push_loop]; [discriminate|].
  destruct (Z.ltb_spec i (Z.of_nat (length sublists))) as [Hlt|Hge].
  - destruct (nth_error sublists (Z.to_nat i)) as [x|] eqn:Ex; [|discriminate].
    rewrite Z.mod_small by lia. intros Hret.
    apply IH in Hret; [|lia]. rewrite Hret, <- app_assoc.
    rewrite (skipn_nth_error _ _ Ex). cbn [map app].
    replace (Z.to_nat (i + 1)) with (S (Z.to_nat i)) by lia. reflexivity.
  - intros [= <-]. rewrite skipn_all2 by lia. cbn [map]. now rewrite app_nil_r.
Qed.

(** The two ways in which the carving part of [poll] returns. *)
Lemma carve_ret (fuel : nat) (buf1 : list byte) (queue : list SensorData)
    (n : Z) (self' : IWR6843 SensorData) :
  carve mkSensorData fuel buf1 queue = Ret (n, self') ->
  (length (findIndexesOfMagicWord buf1) < 2 /\ n = 0%Z /\
   self' = {| dataBuffer := buf1; decodedFrameBuffer := queue |}) \/
  (2 <= length (findIndexesOfMagicWord buf1) /\
   exists sublists,
     n = Z.of_nat (length sublists) /\
     S (length sublists) = length (findIndexesOfMagicWord buf1) /\
     length sublists <= 255 /\
     decodedFrameBuffer self' = queue ++ map mkSensorData sublists /\
     length (dataBuffer self') <= length buf1).
Proof.
  unfold carve. set (idx := findIndexesOfMagicWord buf1).
  destruct (Nat.ltb_spec (length idx) 2) as [Hlt|Hge].
  - intros [= <- <-]. left. auto.
  - intros H. right. split; [assumption|].
    destruct (if hd 0 idx =? 0 then Ret buf1 else erase buf1 0 (hd 0 idx))
      as [buf2| |] eqn:E2; cbn [bind] in H; try discriminate.
    assert (Hlen2 : length buf2 <= length buf1).
    { destruct (hd 0 idx =? 0); [injection E2 as <-; lia|].
      exact (erase_length _ _ _ E2). }
    destruct (splitIntoSublistsByIndexes buf2 idx) as [sublists| |] eqn:Es;
      cbn [bind] in H; try discriminate.
    destruct (push_loop mkSensorData fuel sublists 0 queue) as [queue'| |] eqn:Ep;
      cbn [bind] in H; try discriminate.
    destruct (erase buf2 (hd 0 idx) (last idx 0)) as [buf3| |] eqn:E3;
      cbn [bind] in H; try discriminate.
    injection H as <- <-.
    apply push_loop_ret in Ep; [|lia]. destruct Ep as [H255 ->].
    exists sublists. cbn [dataBuffer decodedFrameBuffer Z.to_nat skipn].
    repeat split; try assumption.
    + exact (proj1 (splitIntoSublistsByIndexes_frames _ _ Es)).
    + pose proof (erase_length _ _ _ E3). lia.
Qed.

(** The three ways in which [poll] returns. *)
Lemma poll_ret (fuel : nat) (self : IWR6843 SensorData) (port : serial_port)
    (n : Z) (self' : IWR6843 SensorData) (port' : serial_port) :
  poll mkSensorData fuel self port = Ret (n, self', port') ->
  (ioctl_fails port = true /\ n = (-1)%Z /\ self' = self /\ port' = port) \/
  (ioctl_fails port = false /\ rx port = [] /\
   n = 0%Z /\ self' = self /\ port' = port) \/
  (ioctl_fails port = false /\ read_fails port = false /\ rx port <> [] /\
   port' = after_read port /\
   carve mkSensorData fuel (dataBuffer self ++ firstn 1024 (rx port))
     (decodedFrameBuffer self) = Ret (n, self')).
Proof.
  destruct (ioctl_fails port) eqn:Hio.
  - unfold poll, ioctl_FIONREAD. rewrite Hio. cbn. intros [= <- <- <-]. auto.
  - destruct (rx port) as [|b rx'] eqn:Hrx.
    + unfold poll, ioctl_FIONREAD. rewrite Hio, Hrx. cbn.
      intros [= <- <- <-]. right. left. auto.
    + destruct (read_fails port) eqn:Hrd.
      * unfold poll, ioctl_FIONREAD, read, insert_end. rewrite Hio, Hrd, Hrx.
        cbn [Z.eqb].
        replace (Z.of_nat (length (b :: rx')) <? 1)%Z with false
          by (symmetry; apply Z.ltb_ge; simpl length; lia).
        cbn [andb Z.leb Z.compare bind]. discriminate.
      * rewrite poll_reads by (rewrite ?Hrx; congruence). rewrite Hrx.
        destruct (carve mkSensorData fuel (dataBuffer self ++ firstn 1024 (b :: rx'))
                    (decodedFrameBuffer self)) as [[n0 s0]| |] eqn:Ec;
          cbn [bind fst snd]; try discriminate.
        intros [= <- <- <-]. right. right.
        repeat split; try reflexivity. discriminate.
Qed.

End PollInversion.

Section PollGuarantees.

Variable SensorData : Type.
Variable mkSensorData : list byte -> SensorData.

(** X5. Whenever [poll] returns, the value is -1 or lies between 0 and 255;
    it is -1 exactly when the availability query failed; and the queue
    afterwards is the queue before followed by as many new frames as the
    value says (none for -1): [poll] never removes or reorders queued
    frames. *)
Theorem poll_return_value_counts_new_frames
    (fuel : nat) (self self' : IWR6843 SensorData) (port port' : serial_port) (n : Z) :
  poll mkSensorData fuel self port = Ret (n, self', port') ->
  (-1 <= n <= 255)%Z /\
  (n = (-1)%Z <-> ioctl_fails port = true) /\
  exists new,
    decodedFrameBuffer self' = decodedFrameBuffer self ++ new /\
    Z.of_nat (length new) = Z.max n 0.
Proof.
  intros H. apply poll_ret in H.
  destruct H as [(Hio & -> & -> & ->)|[(Hio & Hrx & -> & -> & ->)|
                 (Hio & Hrd & Hrx & -> & Hc)]].
  - split; [lia|]. split; [tauto|]. exists []. now rewrite app_nil_r.
  - split; [lia|]. split; [rewrite Hio; split; [lia|discriminate]|].
    exists []. now rewrite app_nil_r.
  - apply carve_ret in Hc.
    destruct Hc as [(_ & -> & ->)|(_ & sublists & -> & _ & H255 & Hq & _)].
    + split; [lia|]. split; [rewrite Hio; split; [lia|discriminate]|].
      exists []. cbn. now rewrite app_nil_r.
    + split; [lia|]. split; [rewrite Hio; split; [lia|discriminate]|].
      exists (map mkSensorData sublists). split; [exact Hq|].
      rewrite length_map. lia.
Qed.

(** X6. Whenever [poll] returns, it has taken at most 1024 bytes from the
    front of the receive queue and left the rest in place, and the byte
    buffer has grown by no more than the bytes taken. *)
Theorem poll_takes_at_most_1024_bytes
    (fuel : nat) (self self' : IWR6843 SensorData) (port port' : serial_port) (n : Z) :
  poll mkSensorData fuel self port = Ret (n, self', port') ->
  exists taken,
    rx port = taken ++ rx port' /\
    length taken <= 1024 /\
    ioctl_fails port' = ioctl_fails port /\
    read_fails port' = read_fails port /\
    length (dataBuffer self') <= length (dataBuffer self) + length taken.
Proof.
  intros H. apply poll_ret in H.
  destruct H as [(Hio & -> & -> & ->)|[(Hio & Hrx & -> & -> & ->)|
                 (Hio & Hrd & Hrx & -> & Hc)]].
  - exists []. repeat split; simpl; lia.
  - exists []. repeat split; simpl; lia.
  - exists (firstn 1024 (rx port)). unfold after_read. cbn [rx ioctl_fails read_fails].
    rewrite firstn_skipn.
    split; [reflexivity|]. split; [rewrite length_firstn; lia|].
    split; [reflexivity|]. split; [reflexivity|].
    apply carve_ret in Hc.
    destruct Hc as [(_ & _ & ->)|(_ & sublists & _ & _ & _ & _ & Hlen)].
    + cbn [dataBuffer]. rewrite length_app. lia.
    + rewrite length_app in Hlen. exact Hlen.
Qed.

(** X7. If the buffer after the read starts with a marker and holds between
    2 and 256 markers, [poll] returns the number of markers minus one,
    enqueues one frame per pair of consecutive markers and keeps exactly the
    bytes from the last marker on. *)
Theorem poll_carves_synchronised_buffer
    (fuel : nat) (self : IWR6843 SensorData) (port : serial_port) :
  let buf := dataBuffer self ++ firstn 1024 (rx port) in
  let indexes := findIndexesOfMagicWord buf in
  ioctl_fails port = false -> read_fails port = false -> rx port <> [] ->
  2 <= length indexes <= 256 -> hd 0 indexes = 0 -> length indexes <= fuel ->
  poll mkSensorData fuel self port =
  Ret (Z.of_nat (length indexes - 1),
       {| dataBuffer := skipn (last indexes 0) buf;
          decodedFrameBuffer :=
            decodedFrameBuffer self ++
            map (fun se => mkSensorData (span buf (fst se) (snd se - 1)))
                (consecutive indexes) |},
       after_read port).
Proof.
  cbv zeta. rewrite findIndexesOfMagicWord_positions.
  intros Hio Hrd Hrx Hn Hhd Hfuel.
  rewrite poll_reads by assumption.
  rewrite carve_aligned by assumption.
  cbn [bind fst snd]. unfold frames. now rewrite map_map.
Qed.

(** X8. With 1 to 8 stray bytes before the first marker the indexes are not
    adjusted after the stray bytes are erased: [poll] still keeps exactly the
    bytes from the last marker on, but the frame it enqueues for the markers
    at [s] and [e] is cut that many bytes too late, from [s + g] to
    [e + g - 1]. *)
Theorem poll_short_garbage_shifts_frames
    (fuel : nat) (self : IWR6843 SensorData) (port : serial_port) :
  let buf := dataBuffer self ++ firstn 1024 (rx port) in
  let indexes := findIndexesOfMagicWord buf in
  let g := hd 0 indexes in
  ioctl_fails port = false -> read_fails port = false -> rx port <> [] ->
  2 <= length indexes <= 256 -> 0 < g <= 8 -> length indexes <= fuel ->
  poll mkSensorData fuel self port =
  Ret (Z.of_nat (length indexes - 1),
       {| dataBuffer := skipn (last indexes 0) buf;
          decodedFrameBuffer :=
            decodedFrameBuffer self ++
            map (fun se => mkSensorData (span buf (fst se + g) (snd se + g - 1)))
                (consecutive indexes) |},
       after_read port).
Proof.
  cbv zeta. rewrite findIndexesOfMagicWord_positions.
  intros Hio Hrd Hrx Hn Hg Hfuel.
  rewrite poll_reads by assumption.
  rewrite carve_short_garbage by assumption.
  cbn [bind fst snd].
  set (P := marker_positions (dataBuffer self ++ firstn 1024 (rx port))) in *.
  assert (Hmap :
    map (fun se => mkSensorData
                     (span (skipn (hd 0 P) (dataBuffer self ++ firstn 1024 (rx port)))
                        (fst se) (snd se - 1))) (consecutive P) =
    map (fun se => mkSensorData
                     (span (dataBuffer self ++ firstn 1024 (rx port))
                        (fst se + hd 0 P) (snd se + hd 0 P - 1))) (consecutive P)).
  { apply map_ext_in. intros [s e] Hse. cbn [fst snd]. f_equal.
    apply consecutive_markers in Hse.
    unfold span. rewrite skipn_skipn. f_equal. lia. }
  rewrite Hmap. reflexivity.
Qed.

(** X9. The return value of [read] is not checked: when bytes are reported
    available and the [read] then fails, -1 is used as the number of bytes
    to append and the behaviour is undefined. *)
Theorem poll_read_failure_is_undefined
    (fuel : nat) (self : IWR6843 SensorData) (port : serial_port) :
  ioctl_fails port = false -> rx port <> [] -> read_fails port = true ->
  poll mkSensorData fuel self port = Undefined.
Proof.
  intros Hio Hrx Hrd.
  unfold poll, ioctl_FIONREAD, read, insert_end. rewrite Hio, Hrd.
  cbn [Z.eqb].
  replace (Z.of_nat (length (rx port)) <? 1)%Z with false; [reflexivity|].
  symmetry. apply Z.ltb_ge. destruct (rx port); [congruence | simpl length; lia].
Qed.

End PollGuarantees.

(** ** The buffer between polls *)

(** What is kept from the last marker on holds that marker and no other. *)
Lemma marker_positions_kept (x : list byte) :
  marker_positions (skipn (last (marker_positions x) 0) x) =
  match marker_positions x with [] => [] | _ :: _ => [0] end.
Proof.
  destruct (list_eq_dec Nat.eq_dec (marker_positions x) []) as [E|Hne].
  - rewrite E. cbn [last skipn]. exact E.
  - assert (Happ : marker_positions (x ++ []) = marker_positions x ++ [])
      by now rewrite !app_nil_r.
    destruct (@marker_positions_from_last x [] [] Hne Happ
                (SSorted_nil lt) (fun i (H : In i []) => match H with end))
      as [Hpos _].
    rewrite app_nil_r in Hpos. rewrite Hpos. cbn [map].
    rewrite Nat.sub_diag.
    destruct (marker_positions x); [congruence | reflexivity].
Qed.

Section BufferInvariant.

Variable SensorData : Type.
Variable mkSensorData : list byte -> SensorData.
Variable fuel : nat.
Hypothesis enough_fuel : 256 <= fuel.

(** [poll_step] for any working port. *)
Lemma poll_fed (queue0 : list SensorData) (p : list byte) (port : serial_port) :
  ioctl_fails port = false -> read_fails port = false ->
  no_garbage (p ++ firstn 1024 (rx port)) ->
  poll mkSensorData fuel (fed mkSensorData queue0 p) port =
  Ret ((frame_count (p ++ firstn 1024 (rx port)) - frame_count p)%Z,
       fed mkSensorData queue0 (p ++ firstn 1024 (rx port)), after_read port).
Proof.
  intros Hio Hrd Hng.
  destruct (rx port) as [|x0 rx'] eqn:Hrx.
  - cbn [firstn]. rewrite app_nil_r, Z.sub_diag.
    unfold poll, ioctl_FIONREAD, after_read. rewrite Hio, Hrx. cbn.
    destruct port. cbn in *. now subst.
  - rewrite <- Hrx in *.
    rewrite poll_reads by (try assumption; rewrite Hrx; discriminate).
    set (c := firstn 1024 (rx port)) in *.
    assert (Hc : length c <= 1024) by (unfold c; rewrite length_firstn; lia).
    cbn [fed dataBuffer decodedFrameBuffer].
    destruct (extend_stream p c Hng Hc) as (Hbuf & Hmax & Hshort & Hlong).
    rewrite Hbuf. unfold frame_count, fed.
    set (b := last (marker_positions p) 0) in *.
    set (idx := marker_positions (skipn b (p ++ c))) in *.
    destruct (Nat.lt_ge_cases (length idx) 2) as [Hlt|Hge].
    + destruct (Hshort Hlt) as (-> & -> & ->).
      unfold carve. rewrite findIndexesOfMagicWord_positions. fold idx.
      apply Nat.ltb_lt in Hlt. rewrite Hlt. cbn [bind fst snd].
      rewrite Z.sub_diag. reflexivity.
    + destruct (Hlong Hge) as (Hal & <- & -> & ->).
      rewrite carve_aligned by (fold idx; lia || assumption).
      cbn [bind fst snd]. fold idx. rewrite map_app, app_assoc.
      f_equal. f_equal. f_equal. lia.
Qed.

(** A buffer with at most one marker and nothing before it is the buffer
    that the stream made of its own bytes leaves. *)
Lemma synchronised_is_fed (self : IWR6843 SensorData) :
  length (marker_positions (dataBuffer self)) <= 1 ->
  no_garbage (dataBuffer self) ->
  self = fed mkSensorData (decodedFrameBuffer self) (dataBuffer self).
Proof.
  unfold fed, frames, no_garbage. destruct self as [buf queue].
  cbn [dataBuffer decodedFrameBuffer].
  destruct (marker_positions buf) as [|a [|a' l]]; cbn; intros; try lia; subst;
    now rewrite app_nil_r.
Qed.

(** X11. Invariant of the byte buffer. If the buffer holds at most one
    marker and, once the bytes read are appended, nothing comes before the
    first marker, then [poll] returns and the buffer again holds at most one
    marker, with nothing before it, whatever number of frames was carved. *)
Theorem poll_keeps_buffer_synchronised
    (self : IWR6843 SensorData) (port : serial_port) :
  ioctl_fails port = false -> read_fails port = false ->
  length (findIndexesOfMagicWord (dataBuffer self)) <= 1 ->
  hd 0 (findIndexesOfMagicWord (dataBuffer self ++ firstn 1024 (rx port))) = 0 ->
  exists n self',
    poll mkSensorData fuel self port = Ret (n, self', after_read port) /\
    length (findIndexesOfMagicWord (dataBuffer self')) <= 1 /\
    hd 0 (findIndexesOfMagicWord (dataBuffer self')) = 0.
Proof.
  rewrite !findIndexesOfMagicWord_positions. intros Hio Hrd Hone Hng.
  pose proof (synchronised_is_fed self Hone (no_garbage_prefix _ _ Hng)) as Hself.
  replace (poll mkSensorData fuel self port)
    with (poll mkSensorData fuel
            (fed mkSensorData (decodedFrameBuffer self) (dataBuffer self)) port)
    by now rewrite <- Hself.
  rewrite poll_fed by assumption.
  do 2 eexists. split; [reflexivity|].
  rewrite !findIndexesOfMagicWord_positions. cbn [fed dataBuffer].
  rewrite marker_positions_kept.
  destruct (marker_positions (dataBuffer self ++ firstn 1024 (rx port)));
    cbn; split; lia.
Qed.

(** X12. Frame count conservation. Let a stream without bytes before its
    first marker reach a reassembler with an empty buffer in chunks of at most
    1024 bytes, one chunk before each [poll]. However long the stream and
    wherever the chunk boundaries fall, the return values add up to the
    number of markers in the stream minus one, the new queue entries are the
    frames between consecutive markers of the whole stream, and the buffer
    ends with the bytes from the last marker on. *)
Theorem poll_chunks_conserves_frames
    (queue : list SensorData) (chunks : list (list byte)) :
  let stream := concat chunks in
  let indexes := findIndexesOfMagicWord stream in
  hd 0 indexes = 0 ->
  (forall c, In c chunks -> length c <= 1024) ->
  poll_chunks mkSensorData fuel
    {| dataBuffer := []; decodedFrameBuffer := queue |} idle_port chunks =
  Ret (Z.of_nat (length indexes - 1),
       {| dataBuffer := skipn (last indexes 0) stream;
          decodedFrameBuffer :=
            queue ++ map (fun se => mkSensorData
                                      (span stream (fst se) (snd se - 1)))
                         (consecutive indexes) |},
       idle_port).
Proof.
  cbv zeta. rewrite findIndexesOfMagicWord_positions. intros Hng Hlen.
  replace {| dataBuffer := []; decodedFrameBuffer := queue |}
    with (fed mkSensorData queue [])
    by (unfold fed, frames; cbn; now rewrite app_nil_r).
  rewrite (@poll_chunks_stream _ mkSensorData fuel enough_fuel queue chunks [])
    by assumption.
  cbn [app]. unfold frame_count, fed, frames. cbn [marker_positions length seq filter].
  rewrite Z.sub_0_r, map_map. reflexivity.
Qed.

End BufferInvariant.

(** ** The frame counter on reachable objects *)

Lemma sorted_hd_zero (l : list nat) :
  StronglySorted lt l -> In 0 l -> hd 0 l = 0.
Proof.
  intros Hs Hin. destruct l as [|a l]; [reflexivity|]. cbn [hd].
  destruct Hin as [->|Hin]; [reflexivity|].
  apply StronglySorted_inv in Hs. destruct Hs as [_ Hall].
  rewrite Forall_forall in Hall. specialize (Hall 0 Hin). lia.
Qed.

Lemma marker_positions_count (buf : list byte) :
  8 * length (marker_positions buf) <= length buf.
Proof.
  assert (Hfit : forall i, In i (marker_positions buf) -> i + 8 <= length buf).
  { intros i Hi. apply marker_positions_In in Hi. exact (marker_at_bound Hi). }
  enough (8 * length (marker_positions buf) <= (length buf - 7) - 0 + 7).
  { destruct (marker_positions buf) as [|i l] eqn:E; [simpl; lia|].
    specialize (Hfit i (or_introl eq_refl)). lia. }
  apply sparse_count.
  - apply marker_positions_sorted.
  - intros i j Hi Hj. apply (@markers_do_not_overlap buf);
      now apply marker_positions_In.
  - intros i Hi. specialize (Hfit i Hi). lia.
Qed.

(** A read of at most 1024 bytes brings at most 128 further markers, and each
    of them ends inside the bytes read. *)
Lemma markers_after_read (old c : list byte) :
  length c <= 1024 ->
  exists new,
    marker_positions (old ++ c) = marker_positions old ++ new /\
    length new <= 128 /\
    forall i, In i new -> length old < i + 8.
Proof.
  intros Hc. destruct (marker_positions_app old c) as (new & Happ & Hs & Hnew).
  exists new. split; [exact Happ|].
  split; [|intros i Hi; apply Hnew; exact Hi].
  enough (8 * length new <=
          (length old + length c - 7) - (length old - 7) + 7) by lia.
  apply sparse_count.
  - exact Hs.
  - intros i j Hi Hj. apply (@markers_do_not_overlap (old ++ c)); now apply Hnew.
  - intros i Hi. destruct (Hnew i Hi) as [_ Hb]. lia.
Qed.

Section ReachableObjects.

Variable SensorData : Type.
Variable mkSensorData : list byte -> SensorData.
Variable fuel : nat.
Hypothesis enough_fuel : 256 <= fuel.

(** With at most 256 markers in the buffer the 8-bit counter reaches the
    number of sublists. *)
Lemma carve_no_wrap (buf : list byte) (queue : list SensorData) :
  length (marker_positions buf) <= 256 ->
  carve mkSensorData fuel buf queue <> Diverges.
Proof.
  intros Hn. unfold carve. rewrite findIndexesOfMagicWord_positions.
  destruct (length (marker_positions buf) <? 2); [discriminate|].
  destruct (if hd 0 (marker_positions buf) =? 0 then Ret buf
            else erase buf 0 (hd 0 (marker_positions buf)))
    as [buf2| |] eqn:E2; cbn [bind]; [|discriminate|].
  2:{ exfalso. destruct (hd 0 (marker_positions buf) =? 0); [discriminate|].
      unfold erase in E2.
      destruct ((0 <=? hd 0 (marker_positions buf)) &&
                (hd 0 (marker_positions buf) <=? length buf)); discriminate. }
  destruct (splitIntoSublistsByIndexes buf2 (marker_positions buf))
    as [sublists| |] eqn:Es; cbn [bind]; [|discriminate|].
  2:{ exfalso. unfold splitIntoSublistsByIndexes in Es.
      destruct (marker_positions buf); [discriminate|].
      exact (@split_loop_ends _ _ _ _ _ Es). }
  pose proof (proj1 (splitIntoSublistsByIndexes_frames _ _ Es)) as Hlen.
  pose proof (@push_loop_returns _ mkSensorData fuel sublists 0 queue
                ltac:(lia) ltac:(lia) ltac:(lia)) as Hp.
  cbn [Z.of_nat] in Hp. rewrite Hp. cbn [bind]. unfold erase.
  destruct ((hd 0 (marker_positions buf) <=? last (marker_positions buf) 0) &&
            (last (marker_positions buf) 0 <=? length buf2)); discriminate.
Qed.

(** Whatever comes before the first marker, a [poll] that returns leaves
    few markers in the buffer. *)
Lemma carve_keeps_few_markers (old c : list byte) (queue : list SensorData)
    (n : Z) (self' : IWR6843 SensorData) :
  few_markers old -> length c <= 1024 ->
  carve mkSensorData fuel (old ++ c) queue = Ret (n, self') ->
  few_markers (dataBuffer self').
Proof.
  intros Hfew Hc Hcarve.
  destruct (@markers_after_read old c Hc) as (new & Happ & Hnew128 & Hnew).
  assert (Hn256 : length (marker_positions (old ++ c)) <= 256).
  { rewrite Happ, length_app. destruct Hfew as [H1 | [_ H128]]; lia. }
  assert (Hkept : few_markers
            (skipn (last (marker_positions (old ++ c)) 0) (old ++ c))).
  { left. rewrite marker_positions_kept.
    destruct (marker_positions (old ++ c)); simpl; lia. }
  destruct (Nat.ltb_spec (length (marker_positions (old ++ c))) 2) as [Hlt|Hge].
  { unfold carve in Hcarve. rewrite findIndexesOfMagicWord_positions in Hcarve.
    replace (length (marker_positions (old ++ c)) <? 2) with true in Hcarve
      by (symmetry; apply Nat.ltb_lt; exact Hlt).
    injection Hcarve as _ <-. left. cbn [dataBuffer]. lia. }
  destruct (Nat.eq_dec (hd 0 (marker_positions (old ++ c))) 0) as [Hg0|Hg].
  { rewrite carve_aligned in Hcarve by (unfold no_garbage; lia || assumption).
    injection Hcarve as _ <-. exact Hkept. }
  destruct (Nat.le_gt_cases (hd 0 (marker_positions (old ++ c))) 8)
    as [Hshort|Hlong].
  { pose proof (@carve_short_garbage _ mkSensorData fuel (old ++ c) queue) as Hsg.
    cbv zeta in Hsg. rewrite Hsg in Hcarve by lia.
    injection Hcarve as _ <-. exact Hkept. }
  (* nine or more bytes before the first marker *)
  assert (Hold : length (marker_positions old) <= 1).
  { destruct Hfew as [H1 | [H0 _]]; [exact H1|]. exfalso. apply Hg.
    apply sorted_hd_zero; [apply marker_positions_sorted|].
    rewrite Happ. apply in_or_app. left. now apply marker_positions_In. }
  assert (Hlast : length old < last (marker_positions (old ++ c)) 0 + 8).
  { apply Hnew. rewrite Happ in *. rewrite length_app in Hge.
    destruct new as [|a new']; [simpl in Hge; lia|].
    rewrite last_app_cons. apply last_In. discriminate. }
  assert (Hfirst : marker_at (old ++ c) (hd 0 (marker_positions (old ++ c)))).
  { apply marker_positions_In.
    destruct (marker_positions (old ++ c)); [simpl in Hge; lia | now left]. }
  revert Hcarve. unfold carve. rewrite findIndexesOfMagicWord_positions.
  set (B := old ++ c) in *. set (idx := marker_positions B) in *.
  set (g := hd 0 idx) in *. set (e := last idx 0) in *.
  replace (length idx <? 2) with false by (symmetry; apply Nat.ltb_ge; exact Hge).
  replace (g =? 0) with false by (symmetry; apply Nat.eqb_neq; exact Hg).
  unfold erase at 1. cbn [Nat.leb andb firstn app].
  destruct (Nat.leb_spec g (length B)) as [HgB|HgB]; cbn [bind]; [|discriminate].
  destruct (splitIntoSublistsByIndexes (skipn g B) idx) as [sublists| |];
    cbn [bind]; try discriminate.
  destruct (push_loop mkSensorData fuel sublists 0 queue) as [queue'| |];
    cbn [bind]; try discriminate.
  unfold erase.
  destruct (Nat.leb_spec g e) as [Hge'|Hge']; cbn [andb bind]; [|discriminate].
  destruct (Nat.leb_spec e (length (skipn g B))) as [HeB|HeB]; cbn [bind];
    [|discriminate].
  intros [= _ <-]. cbn [dataBuffer]. rewrite length_skipn in HeB.
  right. split.
  - unfold marker_at in *. cbn [skipn]. change (length pattern) with 8 in *.
    rewrite firstn_app, firstn_firstn, length_firstn, length_skipn.
    replace (Nat.min 8 g) with 8 by lia.
    replace (8 - Nat.min g (length B - g)) with 0 by lia.
    cbn [firstn]. rewrite app_nil_r. exact Hfirst.
  - pose proof (marker_positions_count
                  (firstn g (skipn g B) ++ skipn e (skipn g B))) as Hcount.
    rewrite length_app, length_firstn, !length_skipn in Hcount.
    assert (HB : length B <= length old + 1024)
      by (unfold B; rewrite length_app; lia).
    lia.
Qed.

Lemma reachable_few_markers (self : IWR6843 SensorData) :
  reachable mkSensorData fuel self -> few_markers (dataBuffer self).
Proof.
  induction 1 as [|self port n self' port' _ IH Hpoll
                  |self num del taken self' _ IH Htake].
  - left. cbn. lia.
  - apply poll_ret in Hpoll.
    destruct Hpoll as [(_ & _ & -> & _)|[(_ & _ & _ & -> & _)|
                       (_ & _ & _ & _ & Hc)]]; try exact IH.
    refine (@carve_keeps_few_markers _ _ _ _ _ IH _ Hc).
    rewrite length_firstn. lia.
  - revert Htake. unfold getDecodedFramesFromTop, range, erase.
    destruct ((num <? 0)%Z || (Z.of_nat (length (decodedFrameBuffer self)) <? num)%Z);
      [discriminate|].
    destruct ((0 <=? Z.to_nat num) &&
              (Z.to_nat num <=? length (decodedFrameBuffer self)));
      cbn [bind]; [|discriminate].
    destruct del; cbn [bind]; intros [= _ <-]; exact IH.
Qed.

(** X10. The loop that pushes the frames counts in 8 bits and would never
    end with 256 or more frames to push. On an object reached from a newly
    constructed one through [poll] and [getDecodedFramesFromTop] this cannot
    happen: the buffer holds at most 128 markers, a read of at most 1024
    bytes adds at most 128, so [poll] finds at most 256 markers, has at most
    255 frames to push, and does not hang in the loop, whatever the port
    delivers and whatever comes before the first marker. *)
Theorem poll_frame_counter_never_wraps
    (self : IWR6843 SensorData) (port : serial_port) :
  reachable mkSensorData fuel self ->
  length (findIndexesOfMagicWord (dataBuffer self)) <= 128 /\
  length (findIndexesOfMagicWord (dataBuffer self ++ firstn 1024 (rx port))) <= 256 /\
  poll mkSensorData fuel self port <> Diverges.
Proof.
  intros Hreach. apply reachable_few_markers in Hreach.
  rewrite !findIndexesOfMagicWord_positions.
  assert (H128 : length (marker_positions (dataBuffer self)) <= 128)
    by (destruct Hreach as [H1 | [_ H]]; lia).
  assert (H256 : length (marker_positions
                           (dataBuffer self ++ firstn 1024 (rx port))) <= 256).
  { destruct (@markers_after_read (dataBuffer self) (firstn 1024 (rx port)))
      as (new & Happ & Hnew & _); [rewrite length_firstn; lia|].
    rewrite Happ, length_app. lia. }
  repeat split; try assumption.
  destruct (ioctl_fails port) eqn:Hio.
  { unfold poll, ioctl_FIONREAD. rewrite Hio. discriminate. }
  destruct (rx port) as [|b rest] eqn:Hrx.
  { unfold poll, ioctl_FIONREAD. rewrite Hio, Hrx. discriminate. }
  destruct (read_fails port) eqn:Hrd.
  { unfold poll, ioctl_FIONREAD, read, insert_end. rewrite Hio, Hrd, Hrx.
    cbn [Z.eqb]. 
    replace (Z.of_nat (length (b :: rest)) <? 1)%Z with false
      by (symmetry; apply Z.ltb_ge; simpl length; lia).
    discriminate. }
  rewrite poll_reads by (try assumption; rewrite Hrx; discriminate).
  rewrite Hrx in *.
  pose proof (@carve_no_wrap (dataBuffer self ++ firstn 1024 (b :: rest))
                (decodedFrameBuffer self) H256) as Hnw.
  destruct (carve mkSensorData fuel (dataBuffer self ++ firstn 1024 (b :: rest))
              (decodedFrameBuffer self)); cbn [bind]; congruence.
Qed.

End ReachableObjects.

(** ** More on the queue accessors *)

Section QueueComposition.

Variable SensorData : Type.

(** X13. [getDecodedFramesFromTop] is defined exactly for counts between 0
    and the size of the queue: a negative count or one larger than the queue
    is not rejected but used as an iterator offset, which is undefined
    behaviour, with or without [del]. *)
Theorem getDecodedFramesFromTop_defined_iff
    (self : IWR6843 SensorData) (num : Z) (del : bool) :
  (exists result, getDecodedFramesFromTop self num del = Ret result) <->
  (0 <= num <= Z.of_nat (length (decodedFrameBuffer self)))%Z.
Proof.
  unfold getDecodedFramesFromTop, range, erase.
  destruct (Z.ltb_spec num 0) as [Hneg|Hpos]; cbn [orb].
  - split; [intros [r Hr]; discriminate | lia].
  - destruct (Z.ltb_spec (Z.of_nat (length (decodedFrameBuffer self))) num)
      as [Hbig|Hfit].
    + split; [intros [r Hr]; discriminate | lia].
    + split; [lia|]. intros _.
      replace (Z.to_nat num <=? length (decodedFrameBuffer self)) with true
        by (symmetry; apply Nat.leb_le; lia).
      cbn. destruct del; eexists; reflexivity.
Qed.

(** X14. Taking [n] frames and then [m] frames with removal gives, one after
    the other, the frames that taking [n + m] frames gives at once, and
    leaves the same object. *)
Theorem getDecodedFramesFromTop_twice (self : IWR6843 SensorData) (n m : nat) :
  n + m <= length (decodedFrameBuffer self) ->
  exists first second self1 self2,
    getDecodedFramesFromTop self (Z.of_nat n) true = Ret (first, self1) /\
    getDecodedFramesFromTop self1 (Z.of_nat m) true = Ret (second, self2) /\
    getDecodedFramesFromTop self (Z.of_nat (n + m)) true =
      Ret (first ++ second, self2).
Proof.
  intros Hnm. set (queue := decodedFrameBuffer self) in *.
  assert (Htake : forall (s : IWR6843 SensorData) k,
    k <= length (decodedFrameBuffer s) ->
    getDecodedFramesFromTop s (Z.of_nat k) true =
    Ret (firstn k (decodedFrameBuffer s),
         {| dataBuffer := dataBuffer s;
            decodedFrameBuffer := skipn k (decodedFrameBuffer s) |})).
  { intros s k Hk. unfold getDecodedFramesFromTop, range, erase.
    rewrite Nat2Z.id.
    replace (Z.of_nat k <? 0)%Z with false by (symmetry; apply Z.ltb_ge; lia).
    replace (Z.of_nat (length (decodedFrameBuffer s)) <? Z.of_nat k)%Z with false
      by (symmetry; apply Z.ltb_ge; lia).
    replace (k <=? length (decodedFrameBuffer s)) with true
      by (symmetry; apply Nat.leb_le; lia).
    cbn. now rewrite Nat.sub_0_r. }
  do 4 eexists. split; [apply Htake; fold queue; lia|]. split.
  - apply Htake. cbn [decodedFrameBuffer]. fold queue.
    rewrite length_skipn. lia.
  - rewrite Htake by (fold queue; lia). cbn [decodedFrameBuffer dataBuffer].
    fold queue. rewrite skipn_skipn, (Nat.add_comm m n).
    f_equal. f_equal.
    rewrite <- (firstn_skipn n queue) at 1.
    rewrite firstn_app, firstn_firstn, length_firstn.
    replace (Nat.min (n + m) n) with n by lia.
    replace (n + m - Nat.min n (length queue)) with m by lia.
    reflexivity.
Qed.

End QueueComposition.

(** ** More on the configuration upload *)

Lemma response_loop_acknowledged (events : list line_event)
    (queue response : list ascii) :
  acknowledged response = true ->
  response_loop events queue response =
  Ret (Some response, {| pending := queue; script := events |}).
Proof. intros H. destruct events; cbn [response_loop]; now rewrite H. Qed.

(** X15. However the device cuts its answer into pieces over successive
    availability queries (pieces of at most 1024 bytes, empty ones included),
    the response is the concatenation of all pieces so far, and the loop is
    left at the first query after which it holds "Done" or "Skipped", with the
    later events untouched. *)
Theorem response_loop_accumulates :
  forall (pieces : list (list ascii)) (later : list line_event) (response : list ascii),
  (forall piece, In piece pieces -> length piece <= 1024) ->
  (forall k, k < length pieces ->
     acknowledged (response ++ concat (firstn k pieces)) = false) ->
  acknowledged (response ++ concat pieces) = true ->
  response_loop (map Arrives pieces ++ later) [] response =
  Ret (Some (response ++ concat pieces), {| pending := []; script := later |}).
Proof.
  induction pieces as [|piece pieces IH]; intros later response Hlen Hnot Hack.
  - cbn [map app concat] in *. rewrite app_nil_r in *.
    now apply response_loop_acknowledged.
  - cbn [map app concat response_loop].
    pose proof (Hnot 0 ltac:(simpl; lia)) as H0. cbn in H0.
    rewrite app_nil_r in H0. rewrite H0.
    pose proof (Hlen piece (or_introl eq_refl)) as Hp.
    assert (Hrest : response_loop (map Arrives pieces ++ later) []
                      (response ++ piece) =
                    Ret (Some (response ++ piece ++ concat pieces),
                         {| pending := []; script := later |})).
    { rewrite app_assoc. apply IH.
      - intros q Hq. apply Hlen. now right.
      - intros k Hk. rewrite <- app_assoc.
        apply (Hnot (S k)). simpl. lia.
      - now rewrite <- app_assoc. }
    destruct piece as [|ch piece'].
    + cbn. rewrite app_nil_r in Hrest. exact Hrest.
    + cbn [app]. 
      replace (Z.of_nat (length (ch :: piece')) =? 0)%Z with false
        by (symmetry; apply Z.eqb_neq; simpl length; lia).
      replace (Z.to_nat (Z.min (Z.of_nat (length (ch :: piece'))) 1024))
        with (length (ch :: piece')) by lia.
      rewrite firstn_all, skipn_all. exact Hrest.
Qed.

(** X16. A script in which every line is empty or starts with '%' is
    uploaded without any I/O on the port: nothing is written, no query is
    made, and the result is 1 whatever state the device is in. *)
Theorem sendConfigFile_nothing_to_send (contents : list ascii) (port : config_port) :
  (forall line, In line (file_lines contents) -> skipped_line line = true) ->
  sendConfigFile (Some contents) port = ([], Ret (1%Z, port)).
Proof.
  unfold sendConfigFile. induction (file_lines contents) as [|line lines IH];
    intros Hall; cbn [upload_lines]; [reflexivity|].
  rewrite (Hall line (or_introl eq_refl)). apply IH.
  intros l Hl. apply Hall. now right.
Qed.

Lemma response_loop_silence (k : nat) :
  response_loop (repeat (Arrives []) k) [] [] = Diverges.
Proof. induction k as [|k IH]; [reflexivity | exact IH]. Qed.

(** X17. The wait for an acknowledgement has no time limit: if the device
    sends nothing, then after any number [k] of availability queries the
    upload has written its first command and nothing else, and is still in
    the response loop. *)
Theorem sendConfigFile_waits_without_limit
    (contents : list ascii) (k : nat) (first : list ascii) (others : list (list ascii)) :
  filter (fun line => negb (skipped_line line)) (file_lines contents) =
    first :: others ->
  sendConfigFile (Some contents)
    {| pending := []; script := repeat (Arrives []) k |} =
  ([Sent first], Diverges).
Proof.
  unfold sendConfigFile. induction (file_lines contents) as [|line lines IH];
    cbn [filter upload_lines]; [discriminate|].
  destruct (skipped_line line); cbn [negb]; [exact IH|].
  intros [= -> _]. cbn [script pending]. now rewrite response_loop_silence.
Qed.

Lemma upload_lines_result : forall lines port rc port',
  snd (upload_lines lines port []) = Ret (rc, port') ->
  let trace := fst (upload_lines lines port []) in
  (rc = 1%Z /\ handshake_complete trace = true) \/
  (rc = (-1)%Z /\
   exists before line,
     trace = before ++ [Sent line] /\
     handshake_complete before = true /\ skipped_line line = false).
Proof.
  induction lines as [|line lines IH]; intros port rc port'; cbn zeta.
  - cbn. intros [= <- _]. left. auto.
  - cbn [upload_lines]. destruct (skipped_line line) eqn:Esk; [apply IH|].
    destruct (response_loop (script port) (pending port) [])
      as [[[response|] port1]| |] eqn:Er; cbn [fst snd app]; try discriminate.
    + rewrite upload_lines_trace. cbn [fst snd app]. intros Hres.
      pose proof (response_loop_break _ _ _ Er) as Hack.
      destruct (IH _ _ _ Hres) as [[-> Hc]|(-> & before & l & Htr & Hc & Hl)].
      * left. split; [reflexivity|]. cbn [handshake_complete].
        now rewrite Hack, Hc.
      * right. split; [reflexivity|].
        exists (Sent line :: Acked response :: before), l.
        rewrite Htr. split; [reflexivity|]. split; [|exact Hl].
        cbn [handshake_complete]. now rewrite Hack, Hc.
    + intros [= <- _]. right. split; [reflexivity|].
      exists [], line. auto.
Qed.


Lemma response_loop_answer (answer : list ascii) (later : list line_event) :
  acknowledged answer = true -> length answer <= 1024 ->
  response_loop (Arrives answer :: later) [] [] =
  Ret (Some answer, {| pending := []; script := later |}).
Proof.
  intros Hack Hlen. cbn [response_loop app].
  change (acknowledged []) with false. cbn iota.
  destruct answer as [|ch answer']; [discriminate Hack|].
  replace (Z.of_nat (length (ch :: answer')) =? 0)%Z with false
    by (symmetry; apply Z.eqb_neq; simpl length; lia).
  replace (Z.to_nat (Z.min (Z.of_nat (length (ch :: answer'))) 1024))
    with (length (ch :: answer')) by lia.
  rewrite firstn_all, skipn_all.
  now apply response_loop_acknowledged.
Qed.

(** X19. If the device answers every availability query with one message of
    at most 1024 bytes that holds "Done" or "Skipped", the upload makes one
    query per command, writes every command in file order, each followed by
    its acknowledgement, and returns 1. *)
Theorem sendConfigFile_completes
    (answer contents : list ascii) (k : nat) :
  let commands :=
    filter (fun line => negb (skipped_line line)) (file_lines contents) in
  acknowledged answer = true -> length answer <= 1024 ->
  length commands <= k ->
  sendConfigFile (Some contents)
    {| pending := []; script := repeat (Arrives answer) k |} =
  (flat_map (fun line => [Sent line; Acked answer]) commands,
   Ret (1%Z, {| pending := [];
                script := repeat (Arrives answer) (k - length commands) |})).
Proof.
  cbv zeta. intros Hack Hlen. unfold sendConfigFile. revert k.
  induction (file_lines contents) as [|line lines IH]; intros k Hk;
    cbn [filter upload_lines flat_map length] in *.
  - now rewrite Nat.sub_0_r.
  - destruct (skipped_line line); cbn [negb] in *; [now apply IH|].
    cbn [length flat_map] in *. destruct k as [|k]; [lia|].
    cbn [script pending repeat]. rewrite response_loop_answer by assumption.
    rewrite upload_lines_trace, IH by lia. reflexivity.
Qed.

(** ** Serial line setup *)

(** Reads off bit [n] of an equation between flag words. *)
Ltac bit_of H n :=
  let B := fresh "B" in
  pose proof (f_equal (fun z => Z.testbit z n) H) as B; cbv beta in B;
  repeat first [ rewrite Z.land_spec in B | rewrite Z.lor_spec in B
               | rewrite Z.lnot_spec in B by assumption
               | rewrite Z.bits_0 in B ];
  revert B.

(** Proves an equation between flag words bit by bit. *)
Ltac bitwise n Hn :=
  apply Z.bits_inj'; intros n Hn;
  repeat first [ rewrite Z.land_spec | rewrite Z.lor_spec
               | rewrite Z.lnot_spec by assumption | rewrite Z.bits_0 ].

Ltac bool_cases :=
  repeat match goal with
         | |- context [Z.testbit ?x ?n] => destruct (Z.testbit x n)
         end;
  cbn; intros; congruence.

Section SerialSetupFacts.

Variable os : platform.

Lemma configSerialPort_succeeds (dev dev' : tty_device) (baudRate : Z) :
  configSerialPort os dev baudRate = (1%Z, dev') ->
  tcgetattr_fails dev = false /\ tcsetattr_fails dev = false /\
  line dev' =
    line_settings os
      (cfsetispeed os (cfsetospeed os (line dev) baudRate) baudRate) /\
  tcgetattr_fails dev' = false /\ tcsetattr_fails dev' = false.
Proof.
  unfold configSerialPort.
  destruct (tcgetattr_fails dev) eqn:Hg; [discriminate|].
  destruct (tcsetattr_fails dev) eqn:Hs; [discriminate|].
  intros [= <-]. cbn. auto.
Qed.

Lemma configSerialPort_fails (dev dev' : tty_device) (baudRate rc : Z) :
  configSerialPort os dev baudRate = (rc, dev') -> rc <> 1%Z ->
  rc = (-1)%Z /\ dev' = dev /\
  (tcgetattr_fails dev = true \/ tcsetattr_fails dev = true).
Proof.
  unfold configSerialPort.
  destruct (tcgetattr_fails dev) eqn:Hg; [intros [= <- <-]; auto|].
  destruct (tcsetattr_fails dev) eqn:Hs; [intros [= <- <-]; auto|].
  intros [= <- _] H. congruence.
Qed.

(** X20. Provided the character size CS8 lies inside the CSIZE field and the
    flags that are set do not overlap the field or the flags that are
    cleared, a successful [configSerialPort] leaves the line with 8 data
    bits, no parity, one stop bit, no hardware or software flow control, the
    receiver enabled, modem control lines ignored, no output processing, no
    local processing, and reads that wait for 1 byte with a timer of 5
    tenths of a second; none of the later assignments undoes an earlier
    one. *)
Theorem configSerialPort_sets_8N1_raw (dev dev' : tty_device) (baudRate : Z) :
  let set := Z.lor (CLOCAL os) (CREAD os) in
  let cleared :=
    Z.lor (Z.lor (Z.lor (PARENB os) (PARODD os)) (CSTOPB os)) (CRTSCTS os) in
  let flow := Z.lor (Z.lor (IXON os) (IXOFF os)) (IXANY os) in
  Z.land (CS8 os) (CSIZE os) = CS8 os ->
  Z.land set (CSIZE os) = 0%Z ->
  Z.land cleared (Z.lor (CS8 os) set) = 0%Z ->
  VMIN os <> VTIME os ->
  configSerialPort os dev baudRate = (1%Z, dev') ->
  let tty := line dev' in
  Z.land (c_cflag tty) (CSIZE os) = CS8 os /\
  Z.land (c_cflag tty) cleared = 0%Z /\
  Z.land (c_cflag tty) set = set /\
  Z.land (c_iflag tty) (Z.lor (IGNBRK os) flow) = 0%Z /\
  c_oflag tty = 0%Z /\ c_lflag tty = 0%Z /\
  c_cc tty (VMIN os) = 1%Z /\ c_cc tty (VTIME os) = 5%Z.
Proof.
  cbv zeta. intros H1 H2 H3 Hcc Hok.
  apply configSerialPort_succeeds in Hok. destruct Hok as (_ & _ & -> & _).
  set (tty0 := cfsetispeed os (cfsetospeed os (line dev) baudRate) baudRate).
  unfold line_settings.
  cbn [c_cflag c_iflag c_oflag c_lflag c_cc set_cflag set_iflag set_oflag
       set_lflag set_cc].
  repeat split.
  - bitwise n Hn. bit_of H1 n. bit_of H2 n. bit_of H3 n. bool_cases.
  - bitwise n Hn. bool_cases.
  - bitwise n Hn. bit_of H3 n. bool_cases.
  - bitwise n Hn. bool_cases.
  - rewrite Nat.eqb_refl.
    destruct (Nat.eqb_spec (VMIN os) (VTIME os)); [contradiction | reflexivity].
  - now rewrite Nat.eqb_refl.
Qed.

(** X21. A successful [configSerialPort] changes nothing but the flags it
    names: every other bit of the control and input flag words, every other
    control character and both speeds are as the speed functions left them.
    In particular input translations that were switched on (CR to NL, strip
    the eighth bit) stay on. *)
Theorem configSerialPort_keeps_other_settings
    (dev dev' : tty_device) (baudRate : Z) :
  configSerialPort os dev baudRate = (1%Z, dev') ->
  let before := cfsetispeed os (cfsetospeed os (line dev) baudRate) baudRate in
  let cmask :=
    Z.lor (Z.lor (CSIZE os) (CS8 os))
      (Z.lor (Z.lor (CLOCAL os) (CREAD os))
         (Z.lor (Z.lor (PARENB os) (PARODD os))
            (Z.lor (CSTOPB os) (CRTSCTS os)))) in
  let imask := Z.lor (IGNBRK os) (Z.lor (Z.lor (IXON os) (IXOFF os)) (IXANY os)) in
  Z.land (c_cflag (line dev')) (Z.lnot cmask) =
    Z.land (c_cflag before) (Z.lnot cmask) /\
  Z.land (c_iflag (line dev')) (Z.lnot imask) =
    Z.land (c_iflag before) (Z.lnot imask) /\
  (forall i, i <> VMIN os -> i <> VTIME os ->
     c_cc (line dev') i = c_cc before i) /\
  c_ispeed (line dev') = c_ispeed before /\
  c_ospeed (line dev') = c_ospeed before.
Proof.
  intros Hok. apply configSerialPort_succeeds in Hok.
  destruct Hok as (_ & _ & -> & _). cbv zeta.
  set (tty0 := cfsetispeed os (cfsetospeed os (line dev) baudRate) baudRate).
  unfold line_settings.
  cbn [c_cflag c_iflag c_oflag c_lflag c_cc c_ispeed c_ospeed
       set_cflag set_iflag set_oflag set_lflag set_cc].
  repeat split.
  - bitwise n Hn. bool_cases.
  - bitwise n Hn. bool_cases.
  - intros i Hmin Htime.
    destruct (Nat.eqb_spec i (VTIME os)); [contradiction|].
    destruct (Nat.eqb_spec i (VMIN os)); [contradiction | reflexivity].
Qed.

(** X22. The settings are idempotent: applying lines 124 to 135 to a
    [termios] that they were already applied to changes no flag word, no
    control character and no speed. *)
Theorem line_settings_idempotent (tty : termios) :
  let once := line_settings os tty in
  let twice := line_settings os once in
  c_cflag twice = c_cflag once /\ c_iflag twice = c_iflag once /\
  c_oflag twice = c_oflag once /\ c_lflag twice = c_lflag once /\
  (forall i, c_cc twice i = c_cc once i) /\
  c_ispeed twice = c_ispeed once /\ c_ospeed twice = c_ospeed once.
Proof.
  cbv zeta. unfold line_settings.
  cbn [c_cflag c_iflag c_oflag c_lflag c_cc c_ispeed c_ospeed
       set_cflag set_iflag set_oflag set_lflag set_cc].
  repeat split.
  - bitwise n Hn. bool_cases.
  - bitwise n Hn. bool_cases.
  - intros i. destruct (i =? VTIME os); [reflexivity|].
    destruct (i =? VMIN os); reflexivity.
Qed.

End SerialSetupFacts.

(** ** Initialisation *)

Lemma sendConfigFile_codes (file : option (list ascii)) (port io : config_port) (rc : Z) :
  snd (sendConfigFile file port) = Ret (rc, io) -> rc = 1%Z \/ rc = (-1)%Z.
Proof.
  destruct file as [contents|]; cbn [sendConfigFile].
  - intros H. apply upload_lines_result in H. tauto.
  - cbn. intros [= <- _]. now right.
Qed.

Section InitFacts.

Variable os : platform.

(** Once both lines are set up, [init] is the upload. *)
Lemma init_uploads (w : world) :
  lines_ready w ->
  let w2 := with_dataPort_tty
              (with_configPort_tty w (configured os (configPort_tty w) (B115200 os)))
              (configured os (dataPort_tty w) (B921600 os)) in
  init os w =
  (fst (sendConfigFile (configFile w) (configPort_line w)),
   match snd (sendConfigFile (configFile w) (configPort_line w)) with
   | Ret (rc, io) =>
       Ret (if (rc <? 1)%Z then (-1)%Z else 1%Z, with_configPort_line w2 io)
   | Undefined => Undefined
   | Diverges => Diverges
   end).
Proof.
  intros (Hc & Hcg & Hcs & Hd & Hdg & Hds). cbv zeta.
  unfold init, configSerialPort.
  replace (open_configPort w <? 1)%Z with false by (symmetry; apply Z.ltb_ge; lia).
  rewrite Hcg, Hcs. cbn [Z.ltb Z.compare Pos.compare Pos.compare_cont].
  cbn [with_configPort_tty open_dataPort dataPort_tty].
  replace (open_dataPort w <? 1)%Z with false by (symmetry; apply Z.ltb_ge; lia).
  rewrite Hdg, Hds. cbn [Z.ltb Z.compare Pos.compare Pos.compare_cont].
  cbn [with_dataPort_tty with_configPort_tty configFile configPort_line].
  unfold configured. rewrite Hcg, Hcs, Hdg, Hds.
  destruct (sendConfigFile (configFile w) (configPort_line w))
    as [trace [[rc io]| |]]; cbn [fst snd]; try reflexivity.
  destruct (rc <? 1)%Z; reflexivity.
Qed.

(** Before both lines are set up, [init] writes nothing and returns -1. *)
Lemma init_not_ready (w : world) :
  ~ lines_ready w -> exists w', init os w = ([], Ret ((-1)%Z, w')).
Proof.
  intros Hnot. unfold init, configSerialPort.
  destruct (Z.ltb_spec (open_configPort w) 1); [eexists; reflexivity|].
  destruct (tcgetattr_fails (configPort_tty w)) eqn:Hcg; [eexists; reflexivity|].
  destruct (tcsetattr_fails (configPort_tty w)) eqn:Hcs; [eexists; reflexivity|].
  cbn [Z.ltb Z.compare Pos.compare Pos.compare_cont].
  cbn [with_configPort_tty open_dataPort dataPort_tty].
  destruct (Z.ltb_spec (open_dataPort w) 1); [eexists; reflexivity|].
  destruct (tcgetattr_fails (dataPort_tty w)) eqn:Hdg; [eexists; reflexivity|].
  destruct (tcsetattr_fails (dataPort_tty w)) eqn:Hds; [eexists; reflexivity|].
  exfalso. apply Hnot. unfold lines_ready. repeat split; assumption.
Qed.

Lemma lines_ready_dec (w : world) : lines_ready w \/ ~ lines_ready w.
Proof.
  unfold lines_ready.
  destruct (Z.le_gt_cases 1 (open_configPort w));
    destruct (Z.le_gt_cases 1 (open_dataPort w));
    destruct (tcgetattr_fails (configPort_tty w));
    destruct (tcsetattr_fails (configPort_tty w));
    destruct (tcgetattr_fails (dataPort_tty w));
    destruct (tcsetattr_fails (dataPort_tty w));
    solve [left; repeat split; (assumption || reflexivity)
          | right; intros (?&?&?&?&?&?); (lia || discriminate)].
Qed.

(** X23. [init] returns 1 exactly when both calls of [open] return a
    descriptor of at least 1, [tcgetattr] and [tcsetattr] succeed on both
    terminals, and the upload of the configuration file returns 1. A
    descriptor 0, which [open] may return, counts as a failure. *)
Theorem init_succeeds_iff (w : world) :
  (exists w', snd (init os w) = Ret (1%Z, w')) <->
  lines_ready w /\
  exists io,
    snd (sendConfigFile (configFile w) (configPort_line w)) = Ret (1%Z, io).
Proof.
  split.
  - intros [w' H]. destruct (lines_ready_dec w) as [Hr|Hn].
    + split; [exact Hr|]. rewrite (init_uploads Hr) in H. cbn [snd] in H.
      destruct (snd (sendConfigFile (configFile w) (configPort_line w)))
        as [[rc io]| |] eqn:E; try discriminate.
      destruct (sendConfigFile_codes _ _ E) as [-> | ->]; [|discriminate].
      now exists io.
    + destruct (init_not_ready Hn) as [w0 E]. rewrite E in H. discriminate.
  - intros [Hr [io E]]. rewrite (init_uploads Hr). cbn [snd]. rewrite E.
    eexists. reflexivity.
Qed.

(** X24. After an [init] that returns 1 the configuration port is set up at
    B115200 and the data port at B921600, both with the settings of
    [configSerialPort], every command of the configuration file was written
    in file order and each one acknowledged, and nothing else was written. *)
Theorem init_success_state (w w' : world) :
  snd (init os w) = Ret (1%Z, w') ->
  configPort_tty w' = configured os (configPort_tty w) (B115200 os) /\
  dataPort_tty w' = configured os (dataPort_tty w) (B921600 os) /\
  exists contents,
    configFile w = Some contents /\
    transmitted (fst (init os w)) =
      filter (fun l => negb (skipped_line l)) (file_lines contents) /\
    handshake_complete (fst (init os w)) = true.
Proof.
  intros H. destruct (lines_ready_dec w) as [Hr|Hn].
  2:{ destruct (init_not_ready Hn) as [w0 E]. rewrite E in H. discriminate. }
  rewrite (init_uploads Hr) in *. cbn [fst snd] in *.
  destruct (snd (sendConfigFile (configFile w) (configPort_line w)))
    as [[rc io]| |] eqn:E; try discriminate.
  destruct (sendConfigFile_codes _ _ E) as [-> | ->]; [|discriminate].
  injection H as <-. split; [reflexivity|]. split; [reflexivity|].
  destruct (configFile w) as [contents|]; [|discriminate E].
  exists contents. split; [reflexivity|].
  exact (proj2 (proj2 (upload_lines_handshake (file_lines contents)
                         (configPort_line w))) io E).
Qed.

(** X25. [init] writes to the device only after both lines were opened and
    set up: if anything was written, both calls of [open] gave a descriptor
    of at least 1 and the terminal calls succeeded on both ports, whatever
    [init] then returns. A failure before that returns -1 with nothing
    written, and [init] never returns anything but 1 or -1. *)
Theorem init_writes_only_when_ready (w : world) :
  (fst (init os w) <> [] -> lines_ready w) /\
  (~ lines_ready w -> exists w', init os w = ([], Ret ((-1)%Z, w'))) /\
  (forall rc w', snd (init os w) = Ret (rc, w') -> rc = 1%Z \/ rc = (-1)%Z).
Proof.
  split; [|split].
  - intros Hw. destruct (lines_ready_dec w) as [Hr|Hn]; [exact Hr|].
    destruct (init_not_ready Hn) as [w0 E]. rewrite E in Hw. now elim Hw.
  - apply init_not_ready.
  - intros rc w' H. destruct (lines_ready_dec w) as [Hr|Hn].
    + rewrite (init_uploads Hr) in H. cbn [snd] in H.
      destruct (snd (sendConfigFile (configFile w) (configPort_line w)))
        as [[rc0 io]| |]; try discriminate.
      injection H as <- _. destruct (rc0 <? 1)%Z; auto.
    + destruct (init_not_ready Hn) as [w0 E]. rewrite E in H.
      injection H as <- _. now right.
Qed.

End InitFacts.

(** ** Instances of the further properties *)

Lemma split_of_located_witness :
  exists sublists,
    splitIntoSublistsByIndexes (MARKER ++ PAYLOAD_A ++ MARKER)
      (findIndexesOfMagicWord (MARKER ++ PAYLOAD_A ++ MARKER)) = Ret sublists /\
    S (length sublists) =
      length (findIndexesOfMagicWord (MARKER ++ PAYLOAD_A ++ MARKER)) /\
    Forall (fun f => 7 <= length f /\ firstn 7 f = firstn 7 pattern) sublists.
Proof.
  exact (@split_of_located (MARKER ++ PAYLOAD_A ++ MARKER)
           ltac:(vm_compute; discriminate)).
Defined.

(** One poll that reads MARKER + PAYLOAD_A + MARKER into an empty buffer. *)
Lemma poll_return_value_counts_new_frames_witness :
  (-1 <= 1 <= 255)%Z /\
  (1%Z = (-1)%Z <-> ioctl_fails (deliver idle_port (MARKER ++ PAYLOAD_A ++ MARKER)) = true) /\
  exists new,
    [MARKER ++ firstn 4 PAYLOAD_A] = [] ++ new /\
    Z.of_nat (length new) = Z.max 1 0.
Proof.
  exact (@poll_return_value_counts_new_frames (list byte) raw_frame 256 fresh
           {| dataBuffer := MARKER;
              decodedFrameBuffer := [MARKER ++ firstn 4 PAYLOAD_A] |}
           (deliver idle_port (MARKER ++ PAYLOAD_A ++ MARKER)) idle_port 1%Z
           ltac:(vm_compute; reflexivity)).
Defined.

Lemma poll_takes_at_most_1024_bytes_witness :
  exists taken,
    LONG_INPUT = taken ++ skipn 1024 LONG_INPUT /\
    length taken <= 1024 /\
    false = false /\ false = false /\
    length (firstn 1024 LONG_INPUT) <= 0 + length taken.
Proof.
  exact (@poll_takes_at_most_1024_bytes (list byte) raw_frame 256 fresh
           {| dataBuffer := firstn 1024 LONG_INPUT; decodedFrameBuffer := [] |}
           (deliver idle_port LONG_INPUT)
           {| rx := skipn 1024 LONG_INPUT; ioctl_fails := false;
              read_fails := false |} 0%Z
           ltac:(vm_compute; reflexivity)).
Defined.

Lemma poll_carves_synchronised_buffer_witness :
  poll raw_frame 256 fresh
    (deliver idle_port (MARKER ++ PAYLOAD_A ++ MARKER ++ PAYLOAD_B ++ MARKER)) =
  Ret (2%Z,
       {| dataBuffer := MARKER;
          decodedFrameBuffer :=
            [MARKER ++ firstn 4 PAYLOAD_A; MARKER ++ firstn 4 PAYLOAD_B] |},
       idle_port).
Proof.
  exact (@poll_carves_synchronised_buffer (list byte) raw_frame 256 fresh
           (deliver idle_port (MARKER ++ PAYLOAD_A ++ MARKER ++ PAYLOAD_B ++ MARKER))
           eq_refl eq_refl ltac:(discriminate)
           ltac:(vm_compute; lia) ltac:(vm_compute; reflexivity)
           ltac:(vm_compute; lia)).
Defined.

Lemma poll_short_garbage_shifts_frames_witness :
  poll raw_frame 256 fresh
    (deliver idle_port (GARBAGE ++ MARKER ++ PAYLOAD_A ++ MARKER ++ PAYLOAD_B)) =
  Ret (1%Z,
       {| dataBuffer := MARKER ++ PAYLOAD_B;
          decodedFrameBuffer :=
            [skipn 3 MARKER ++ PAYLOAD_A ++ firstn 2 MARKER] |},
       idle_port).
Proof.
  exact (@poll_short_garbage_shifts_frames (list byte) raw_frame 256 fresh
           (deliver idle_port (GARBAGE ++ MARKER ++ PAYLOAD_A ++ MARKER ++ PAYLOAD_B))
           eq_refl eq_refl ltac:(discriminate)
           ltac:(vm_compute; lia) ltac:(vm_compute; lia)
           ltac:(vm_compute; lia)).
Defined.

Lemma poll_read_failure_is_undefined_witness :
  poll raw_frame 256 busy unreadable_port = Undefined.
Proof.
  exact (@poll_read_failure_is_undefined (list byte) raw_frame 256 busy
           unreadable_port eq_refl ltac:(discriminate) eq_refl).
Defined.

Lemma poll_keeps_buffer_synchronised_witness :
  exists n self',
    poll raw_frame 256 busy (deliver idle_port (MARKER ++ PAYLOAD_A)) =
      Ret (n, self', after_read (deliver idle_port (MARKER ++ PAYLOAD_A))) /\
    length (findIndexesOfMagicWord (dataBuffer self')) <= 1 /\
    hd 0 (findIndexesOfMagicWord (dataBuffer self')) = 0.
Proof.
  exact (@poll_keeps_buffer_synchronised (list byte) raw_frame 256
           ltac:(lia) busy (deliver idle_port (MARKER ++ PAYLOAD_A))
           eq_refl eq_refl ltac:(vm_compute; lia) ltac:(vm_compute; reflexivity)).
Defined.

Lemma poll_chunks_conserves_frames_witness :
  poll_chunks raw_frame 256 fresh idle_port LONG_CHUNKS =
  Ret (2%Z,
       {| dataBuffer := MARKER;
          decodedFrameBuffer :=
            [firstn 1023 LONG_INPUT; MARKER ++ firstn 4 PAYLOAD_A] |},
       idle_port).
Proof.
  exact (@poll_chunks_conserves_frames (list byte) raw_frame 256 ltac:(lia)
           [] LONG_CHUNKS ltac:(vm_compute; reflexivity)
           ltac:(intros c [<-|[<-|[<-|[]]]]; vm_compute; lia)).
Defined.

Lemma getDecodedFramesFromTop_twice_witness :
  exists first second self1 self2,
    getDecodedFramesFromTop busy 1 true = Ret (first, self1) /\
    getDecodedFramesFromTop self1 2 true = Ret (second, self2) /\
    getDecodedFramesFromTop busy 3 true = Ret (first ++ second, self2).
Proof.
  exact (@getDecodedFramesFromTop_twice (list byte) busy 1 2
           ltac:(vm_compute; lia)).
Defined.

(** An answer that arrives as nothing, then "Do", then "ne". *)
Lemma response_loop_accumulates_witness :
  response_loop
    (map Arrives [[]; list_ascii_of_string "Do"; list_ascii_of_string "ne"]
       ++ [QueryFails]) [] [] =
  Ret (Some ([] ++ concat [[]; list_ascii_of_string "Do"; list_ascii_of_string "ne"]),
       {| pending := []; script := [QueryFails] |}).
Proof.
  exact (@response_loop_accumulates
           [[]; list_ascii_of_string "Do"; list_ascii_of_string "ne"]
           [QueryFails] []
           ltac:(intros piece [<-|[<-|[<-|[]]]]; simpl; lia)
           ltac:(intros k Hk; destruct k as [|[|[|k]]];
                 [reflexivity | reflexivity | reflexivity | simpl in Hk; lia])
           eq_refl).
Defined.

Lemma sendConfigFile_nothing_to_send_witness :
  sendConfigFile (Some comment_script) {| pending := []; script := [QueryFails] |} =
  ([], Ret (1%Z, {| pending := []; script := [QueryFails] |})).
Proof.
  exact (@sendConfigFile_nothing_to_send comment_script
           {| pending := []; script := [QueryFails] |}
           ltac:(intros l [<-|[<-|[<-|[]]]]; reflexivity)).
Defined.

Lemma sendConfigFile_waits_without_limit_witness :
  sendConfigFile (Some config_script)
    {| pending := []; script := repeat (Arrives []) 1000 |} =
  ([Sent (list_ascii_of_string "sensorStart")], Diverges).
Proof.
  exact (@sendConfigFile_waits_without_limit config_script 1000
           (list_ascii_of_string "sensorStart") [] eq_refl).
Defined.


Lemma sendConfigFile_completes_witness :
  sendConfigFile (Some config_script)
    {| pending := []; script := repeat (Arrives Done) 3 |} =
  ([Sent (list_ascii_of_string "sensorStart"); Acked Done],
   Ret (1%Z, {| pending := []; script := repeat (Arrives Done) 2 |})).
Proof.
  exact (@sendConfigFile_completes Done config_script 3 eq_refl
           ltac:(vm_compute; lia) ltac:(vm_compute; lia)).
Defined.

Lemma configSerialPort_sets_8N1_raw_witness :
  Z.land (c_cflag raw_tty) 48 = 48%Z /\
  Z.land (c_cflag raw_tty) (Z.lor (Z.lor (Z.lor 256 512) 64) 2147483648) = 0%Z /\
  Z.land (c_cflag raw_tty) (Z.lor 2048 128) = Z.lor 2048 128 /\
  Z.land (c_iflag raw_tty) (Z.lor 1 (Z.lor (Z.lor 1024 4096) 2048)) = 0%Z /\
  c_oflag raw_tty = 0%Z /\ c_lflag raw_tty = 0%Z /\
  c_cc raw_tty 6 = 1%Z /\ c_cc raw_tty 5 = 5%Z.
Proof.
  exact (@configSerialPort_sets_8N1_raw linux_x86 cooked_tty
           (configured linux_x86 cooked_tty 4098) 4098%Z
           eq_refl eq_refl eq_refl ltac:(discriminate) eq_refl).
Defined.

(** What the setup of [cooked_tty] leaves alone, the CR to NL translation
    (ICRNL, 256) and the speed code in [c_cflag] among it. *)
Lemma configSerialPort_keeps_other_settings_witness :
  Z.land (c_cflag raw_tty)
    (Z.lnot (Z.lor (Z.lor 48 48)
               (Z.lor (Z.lor 2048 128) (Z.lor (Z.lor 256 512) (Z.lor 64 2147483648))))) =
    Z.land (c_cflag speed_set_tty)
      (Z.lnot (Z.lor (Z.lor 48 48)
                 (Z.lor (Z.lor 2048 128) (Z.lor (Z.lor 256 512) (Z.lor 64 2147483648))))) /\
  Z.land (c_iflag raw_tty) (Z.lnot (Z.lor 1 (Z.lor (Z.lor 1024 4096) 2048))) =
    Z.land (c_iflag speed_set_tty)
      (Z.lnot (Z.lor 1 (Z.lor (Z.lor 1024 4096) 2048))) /\
  (forall i, i <> 6 -> i <> 5 -> c_cc raw_tty i = c_cc speed_set_tty i) /\
  c_ispeed raw_tty = c_ispeed speed_set_tty /\
  c_ospeed raw_tty = c_ospeed speed_set_tty.
Proof.
  exact (@configSerialPort_keeps_other_settings linux_x86 cooked_tty
           (configured linux_x86 cooked_tty 4098) 4098%Z eq_refl).
Defined.

(** The flag words of this instance in numbers: [c_cflag] goes from 864 to
    4962 with the speed code and to 6322 with the line settings, and
    [c_iflag] keeps ICRNL alone. *)
Example linux_x86_flag_words :
  c_cflag (line cooked_tty) = 864%Z /\ c_cflag speed_set_tty = 4962%Z /\
  c_cflag raw_tty = 6322%Z /\ c_iflag raw_tty = 256%Z /\
  c_ispeed raw_tty = 4098%Z /\ c_ospeed raw_tty = 4098%Z.
Proof. repeat split; reflexivity. Qed.

Lemma poll_frame_counter_never_wraps_witness :
  length (findIndexesOfMagicWord (dataBuffer shifted)) <= 128 /\
  length (findIndexesOfMagicWord
            (dataBuffer shifted ++ firstn 1024 (rx (deliver idle_port LONG_INPUT))))
    <= 256 /\
  poll raw_frame 256 shifted (deliver idle_port LONG_INPUT) <> Diverges.
Proof.
  exact (@poll_frame_counter_never_wraps (list byte) raw_frame 256 ltac:(lia)
           shifted (deliver idle_port LONG_INPUT)
           (@reachable_poll (list byte) raw_frame 256 fresh
              (deliver idle_port
                 (GARBAGE9 ++ MARKER ++ PAYLOAD_A ++ MARKER ++ PAYLOAD_B))
              1%Z shifted idle_port
              (@reachable_new (list byte) raw_frame 256)
              ltac:(vm_compute; reflexivity))).
Defined.

Lemma init_success_state_witness :
  configPort_tty
    (with_configPort_line
       (with_dataPort_tty
          (with_configPort_tty ready_world (configured linux_x86 cooked_tty 4098))
          (configured linux_x86 cooked_tty 4103))
       {| pending := []; script := [] |}) =
    configured linux_x86 cooked_tty 4098 /\
  dataPort_tty
    (with_configPort_line
       (with_dataPort_tty
          (with_configPort_tty ready_world (configured linux_x86 cooked_tty 4098))
          (configured linux_x86 cooked_tty 4103))
       {| pending := []; script := [] |}) =
    configured linux_x86 cooked_tty 4103 /\
  exists contents,
    configFile ready_world = Some contents /\
    transmitted (fst (init linux_x86 ready_world)) =
      filter (fun l => negb (skipped_line l)) (file_lines contents) /\
    handshake_complete (fst (init linux_x86 ready_world)) = true.
Proof.
  exact (@init_success_state linux_x86 ready_world
           (with_configPort_line
              (with_dataPort_tty
                 (with_configPort_tty ready_world
                    (configured linux_x86 cooked_tty 4098))
                 (configured linux_x86 cooked_tty 4103))
              {| pending := []; script := [] |})
           eq_refl).
Defined.
